(** * HireFlow AI: the multi-agent evaluation and decision pipeline

    A shallow embedding of the backend's agent code:
    - [Agent.evaluate], [evaluateCandidate] and [negotiateScores] of
      [hireflow_backend/agents.js] (SmartInference variant),
    - the [negotiateScores] of the Gemini variant of [agents.js], whose
      text follows [hireflow_backend/server.js],
    - [decideHiring], [generateFinalDecision] and
      [generateFollowUpQuestion] of [decision.js], whose text follows
      [hireflow_backend/README.md].

    JavaScript values that come out of [JSON.parse] are the type [json];
    [undefined] is [None] in [option json].  Numbers are rationals: the
    arithmetic of the discrepancy check is exact here, where the program
    computes in IEEE doubles.  Strings are byte strings (UTF-8).

    The remote capabilities (evaluators, mediator, judgment, clarification)
    are functions from what their prompt is built from to a text or a
    failure; every call is appended to a log, so that theorems can count
    them.  [Promise.all] is a join that settles promise by promise along
    a schedule, the order in which the branches complete. *)

From Stdlib Require Import List String Ascii Bool Arith ZArith QArith Qminmax
  Qabs Lia Permutation.
Import ListNotations.

Local Open Scope string_scope.

(** ** JSON values *)

#[local] Set Warnings "-register-all".

Inductive json : Type :=
| JNull : json
| JBool (b : bool) : json
| JNum (q : Q) : json
| JStr (s : string) : json
| JArr (items : list json) : json
| JObj (fields : list (string * json)) : json.

(** A JavaScript value: [None] is [undefined]. *)
Definition jsval : Type := option json.

(** Own properties of an object, in insertion order. *)
Fixpoint lookup (k : string) (fields : list (string * json)) : jsval :=
  match fields with
  | [] => None
  | (k', v) :: rest => if String.eqb k k' then Some v else lookup k rest
  end.

(** [o[k] = v]: overwrite in place, or append a new property. *)
Fixpoint assign (k : string) (v : json) (fields : list (string * json))
  : list (string * json) :=
  match fields with
  | [] => [(k, v)]
  | (k', v') :: rest =>
      if String.eqb k k' then (k', v) :: rest else (k', v') :: assign k v rest
  end.

Definition keys (fields : list (string * json)) : list string :=
  map fst fields.

(** ** [JSON.parse] *)

Module JSON.

Local Open Scope char_scope.

Definition is_ws (c : ascii) : bool :=
  Ascii.eqb c " " || Ascii.eqb c "009" || Ascii.eqb c "010"
  || Ascii.eqb c "013".

Fixpoint skip_ws (s : list ascii) : list ascii :=
  match s with
  | c :: r => if is_ws c then skip_ws r else s
  | [] => []
  end.

(** [s] without the literal [lit] at its front. *)
Fixpoint literal (lit s : list ascii) : option (list ascii) :=
  match lit, s with
  | [], _ => Some s
  | a :: lit', b :: s' => if Ascii.eqb a b then literal lit' s' else None
  | _ :: _, [] => None
  end.

Definition starts (c : ascii) (s : list ascii) : option (list ascii) :=
  match s with
  | c' :: r => if Ascii.eqb c c' then Some r else None
  | [] => None
  end.

Definition digit (c : ascii) : option Z :=
  let n := nat_of_ascii c in
  if (48 <=? n)%nat && (n <=? 57)%nat then Some (Z.of_nat (n - 48)) else None.

Definition hexdigit (c : ascii) : option Z :=
  let n := nat_of_ascii c in
  if (48 <=? n)%nat && (n <=? 57)%nat then Some (Z.of_nat (n - 48))
  else if (65 <=? n)%nat && (n <=? 70)%nat then Some (Z.of_nat (n - 55))
  else if (97 <=? n)%nat && (n <=? 102)%nat then Some (Z.of_nat (n - 87))
  else None.

(** The longest run of decimal digits: its value after [acc], how many
    digits were read, and the rest. *)
Fixpoint digits (s : list ascii) (acc : Z) (count : nat)
  : Z * nat * list ascii :=
  match s with
  | c :: r =>
      match digit c with
      | Some d => digits r (10 * acc + d)%Z (S count)
      | None => (acc, count, s)
      end
  | [] => (acc, count, s)
  end.

(** Integer part: a single [0], or a run that does not start with [0]. *)
Definition int_part (s : list ascii) : option (Z * list ascii) :=
  match s with
  | c :: r =>
      match digit c with
      | Some 0%Z => Some (0%Z, r)
      | Some d => let '(m, _, r') := digits r d 1 in Some (m, r')
      | None => None
      end
  | [] => None
  end.

Definition frac_part (m : Z) (s : list ascii) : option (Z * nat * list ascii) :=
  match starts "." s with
  | Some r =>
      match digits r m 0 with
      | (_, O, _) => None
      | (m', k, r') => Some (m', k, r')
      end
  | None => Some (m, O, s)
  end.

(** The digits of an exponent, after its sign. *)
Definition exponent (neg : bool) (r : list ascii) : option (Z * list ascii) :=
  match digits r 0 0 with
  | (_, O, _) => None
  | (e, _, r') => Some (if neg then (- e)%Z else e, r')
  end.

Definition exp_part (s : list ascii) : option (Z * list ascii) :=
  match s with
  | c :: r =>
      if Ascii.eqb c "e" || Ascii.eqb c "E" then
        match starts "+" r with
        | Some r' => exponent false r'
        | None =>
            match starts "-" r with
            | Some r' => exponent true r'
            | None => exponent false r
            end
        end
      else Some (0%Z, s)
  | [] => Some (0%Z, s)
  end.

(** [m * 10^e] as a reduced fraction. *)
Definition scale (m e : Z) : Q :=
  if (0 <=? e)%Z then inject_Z (m * 10 ^ e)
  else Qred (Qmake m (Z.to_pos (10 ^ (- e)))).

Definition number (s : list ascii) : option (Q * list ascii) :=
  let '(neg, s1) :=
    match starts "-" s with Some r => (true, r) | None => (false, s) end in
  match int_part s1 with
  | None => None
  | Some (m, s2) =>
      match frac_part m s2 with
      | None => None
      | Some (m', k, s3) =>
          match exp_part s3 with
          | None => None
          | Some (e, s4) =>
              let q := scale m' (e - Z.of_nat k) in
              Some (if neg then Qopp q else q, s4)
          end
      end
  end.

Definition hex4 (s : list ascii) : option (Z * list ascii) :=
  match s with
  | a :: b :: c :: d :: r =>
      match hexdigit a, hexdigit b, hexdigit c, hexdigit d with
      | Some x, Some y, Some z, Some w =>
          Some ((((x * 16 + y) * 16 + z) * 16 + w)%Z, r)
      | _, _, _, _ => None
      end
  | _ => None
  end.

Definition byte (z : Z) : ascii := ascii_of_N (Z.to_N z).

(** UTF-8 bytes of a code point. *)
Definition utf8 (cp : Z) : list ascii :=
  if (cp <? 128)%Z then [byte cp]
  else if (cp <? 2048)%Z then
    [byte (192 + cp / 64); byte (128 + cp mod 64)]
  else if (cp <? 65536)%Z then
    [byte (224 + cp / 4096); byte (128 + (cp / 64) mod 64);
     byte (128 + cp mod 64)]
  else
    [byte (240 + cp / 262144); byte (128 + (cp / 4096) mod 64);
     byte (128 + (cp / 64) mod 64); byte (128 + cp mod 64)].

Definition simple_escape (c : ascii) : option ascii :=
  if Ascii.eqb c "034" then Some "034"
  else if Ascii.eqb c "\" then Some "\"
  else if Ascii.eqb c "/" then Some "/"
  else if Ascii.eqb c "b" then Some "008"
  else if Ascii.eqb c "f" then Some "012"
  else if Ascii.eqb c "n" then Some "010"
  else if Ascii.eqb c "r" then Some "013"
  else if Ascii.eqb c "t" then Some "009"
  else None.

(** A [\uXXXX] escape whose four digits are [u]; a high surrogate takes
    the low surrogate that follows it. *)
Definition unicode_escape (u : Z) (r : list ascii) : Z * list ascii :=
  if (55296 <=? u)%Z && (u <? 56320)%Z then
    match literal ["\"; "u"] r with
    | Some r' =>
        match hex4 r' with
        | Some (lo, r'') =>
            if (56320 <=? lo)%Z && (lo <? 57344)%Z
            then ((65536 + (u - 55296) * 1024 + (lo - 56320))%Z, r'')
            else (u, r)
        | None => (u, r)
        end
    | None => (u, r)
    end
  else (u, r).

(** The characters of a string literal after its opening quote;
    [acc] is reversed. *)
Fixpoint chars (n : nat) (s : list ascii) (acc : list ascii)
  : option (string * list ascii) :=
  match n with
  | O => None
  | S n' =>
      match s with
      | [] => None
      | c :: r =>
          if Ascii.eqb c "034" then
            Some (string_of_list_ascii (rev acc), r)
          else if Ascii.eqb c "\" then
            match starts "u" r with
            | Some r1 =>
                match hex4 r1 with
                | Some (u, r2) =>
                    let '(cp, r3) := unicode_escape u r2 in
                    chars n' r3 (rev (utf8 cp) ++ acc)
                | None => None
                end
            | None =>
                match r with
                | e :: r1 =>
                    match simple_escape e with
                    | Some x => chars n' r1 (x :: acc)
                    | None => None
                    end
                | [] => None
                end
            end
          else if (nat_of_ascii c <? 32)%nat then None
          else chars n' r (c :: acc)
      end
  end.

Definition string_literal (s : list ascii) : option (string * list ascii) :=
  match starts "034" s with
  | Some r => chars (S (List.length r)) r []
  | None => None
  end.

Definition keyword (s : list ascii) : option (json * list ascii) :=
  match literal (list_ascii_of_string "true") s with
  | Some r => Some (JBool true, r)
  | None =>
      match literal (list_ascii_of_string "false") s with
      | Some r => Some (JBool false, r)
      | None =>
          match literal (list_ascii_of_string "null") s with
          | Some r => Some (JNull, r)
          | None => None
          end
      end
  end.

(** A value that is not an object or an array. *)
Definition scalar (s : list ascii) : option (json * list ascii) :=
  match starts "034" s with
  | Some _ =>
      match string_literal s with
      | Some (str, r) => Some (JStr str, r)
      | None => None
      end
  | None =>
      match keyword s with
      | Some res => Some res
      | None =>
          match number s with
          | Some (q, r) => Some (JNum q, r)
          | None => None
          end
      end
  end.

Fixpoint value (n : nat) (s : list ascii) : option (json * list ascii) :=
  match n with
  | O => None
  | S n' =>
      let s0 := skip_ws s in
      match starts "{" s0 with
      | Some r =>
          match starts "}" (skip_ws r) with
          | Some r' => Some (JObj [], r')
          | None => members n' r []
          end
      | None =>
          match starts "[" s0 with
          | Some r =>
              match starts "]" (skip_ws r) with
              | Some r' => Some (JArr [], r')
              | None => elements n' r []
              end
          | None => scalar s0
          end
      end
  end
with members (n : nat) (s : list ascii) (acc : list (string * json))
  : option (json * list ascii) :=
  match n with
  | O => None
  | S n' =>
      match string_literal (skip_ws s) with
      | Some (k, r1) =>
          match starts ":" (skip_ws r1) with
          | Some r2 =>
              match value n' r2 with
              | Some (v, r3) =>
                  match starts "," (skip_ws r3) with
                  | Some r4 => members n' r4 (assign k v acc)
                  | None =>
                      match starts "}" (skip_ws r3) with
                      | Some r4 => Some (JObj (assign k v acc), r4)
                      | None => None
                      end
                  end
              | None => None
              end
          | None => None
          end
      | None => None
      end
  end
with elements (n : nat) (s : list ascii) (acc : list json)
  : option (json * list ascii) :=
  match n with
  | O => None
  | S n' =>
      match value n' s with
      | Some (v, r) =>
          match starts "," (skip_ws r) with
          | Some r' => elements n' r' (v :: acc)
          | None =>
              match starts "]" (skip_ws r) with
              | Some r' => Some (JArr (rev (v :: acc)), r')
              | None => None
              end
          end
      | None => None
      end
  end.

(** [JSON.parse(text)]: [None] stands for the [SyntaxError] it throws. *)
Definition parse (text : string) : option json :=
  let s := list_ascii_of_string text in
  match value (2 * List.length s + 2) s with
  | Some (v, r) => match skip_ws r with [] => Some v | _ => None end
  | None => None
  end.

End JSON.

(** JSON texts are written with single quotes in this file; [json_text]
    turns each of them into a double quote. *)
Definition json_text (s : string) : string :=
  string_of_list_ascii
    (map (fun c => if Ascii.eqb c "'" then "034"%char else c)
       (list_ascii_of_string s)).

(** ** The regular expression [/\{[\s\S]*\}/]

    [regex.exec(text)] and [text.match(regex)] return the leftmost match,
    and the star is greedy: from the first opening brace to the last
    closing brace after it. *)

Module Regex.

Local Open Scope char_scope.

Fixpoint from_first (c : ascii) (s : list ascii) : option (list ascii) :=
  match s with
  | [] => None
  | x :: r => if Ascii.eqb x c then Some s else from_first c r
  end.

Definition upto_last (c : ascii) (s : list ascii) : option (list ascii) :=
  match from_first c (rev s) with
  | Some r => Some (rev r)
  | None => None
  end.

(** The matched substring [jsonMatch[0]], or [None] for a [null] match. *)
Definition exec (text : string) : option string :=
  match from_first "{" (list_ascii_of_string text) with
  | Some (open :: r) =>
      match upto_last "}" r with
      | Some body => Some (string_of_list_ascii (open :: body))
      | None => None
      end
  | _ => None
  end.

End Regex.

(** ** Effects: capability calls, exceptions and pending promises *)

Inductive evaluator : Type := hr | manager | sales.

Definition key (who : evaluator) : string :=
  match who with hr => "hr" | manager => "manager" | sales => "sales" end.

(** What a remote capability answers: its text, or a rejection with the
    message of its error. *)
Inductive response : Type :=
| Text (text : string)
| Failure (message : string).

(** The four remote capabilities, each as a function of the data its
    prompt is built from. *)
Record Capabilities : Type := {
  invoke : evaluator -> json -> response;
  mediate : json -> response;
  judge : json -> json -> response;
  clarify : json -> response
}.

(** What the JavaScript engine fixes and the program does not: the text of
    the errors it raises, how it prints a number, and the result of
    [maxDiff > 2] when a score is a string, an array or an object (the
    sum then concatenates strings). *)
Record Engine : Type := {
  syntaxErrorMessage : string -> string;
  typeErrorMessage : jsval -> string -> string;
  numberToString : Q -> string;
  looseDiscrepancy : jsval -> jsval -> jsval -> bool
}.

Inductive call : Type :=
| Evaluator (who : evaluator) (candidate : json)
| Mediator (evaluations : json)
| Judge (evaluations negotiation : json)
| Clarifier (evaluations : json).

Inductive outcome (A : Type) : Type :=
| Return (a : A)
| Throw (message : string)
| Pending.

Arguments Return {A} a.
Arguments Throw {A} message.
Arguments Pending {A}.

(** A computation: it extends the log of capability calls and returns,
    throws, or waits for ever on a promise that never settles. *)
Definition M (A : Type) : Type := list call -> outcome A * list call.

Definition ret {A} (a : A) : M A := fun log => (Return a, log).

Definition throw {A} (message : string) : M A := fun log => (Throw message, log).

Definition bind {A B} (m : M A) (k : A -> M B) : M B :=
  fun log =>
    match m log with
    | (Return a, log') => k a log'
    | (Throw e, log') => (Throw e, log')
    | (Pending, log') => (Pending, log')
    end.

Notation "x <- m ;; k" := (bind m (fun x => k))
  (at level 61, m at next level, right associativity).
Notation "m ;; k" := (bind m (fun _ => k))
  (at level 61, right associativity).
Notation "' pat <- m ;; k" := (bind m (fun x => match x with pat => k end))
  (at level 61, pat pattern, m at next level, right associativity).

(** [try { m } catch (error) { handler(error.message) }] *)
Definition try_catch {A} (m : M A) (handler : string -> M A) : M A :=
  fun log =>
    match m log with
    | (Throw e, log') => handler e log'
    | other => other
    end.

(** [await capability(...)]: the call is logged, then its answer is
    returned or its rejection thrown. *)
Definition await (c : call) (r : response) : M string :=
  fun log =>
    (match r with Text t => Return t | Failure e => Throw e end,
     (log ++ [c])%list).

(** Calling an async function: it runs, and its promise holds its
    outcome. *)
Definition spawn {A} (m : M A) : M (outcome A) :=
  fun log => let (r, log') := m log in (Return r, log').

(** *** [Promise.all] *)

Inductive join (A : Type) : Type :=
| Waiting (slots : list (option A)) (remaining : nat)
| Fulfilled (values : list A)
| Rejected (message : string).

Arguments Waiting {A} slots remaining.
Arguments Fulfilled {A} values.
Arguments Rejected {A} message.

Fixpoint store {A} (i : nat) (v : A) (slots : list (option A))
  : list (option A) :=
  match slots, i with
  | [], _ => []
  | _ :: rest, O => Some v :: rest
  | x :: rest, S i' => x :: store i' v rest
  end.

Fixpoint values {A} (slots : list (option A)) : list A :=
  match slots with
  | [] => []
  | Some v :: rest => v :: values rest
  | None :: rest => values rest
  end.

(** Promise number [i] settles with [r]: a rejection rejects the join at
    once; a value goes to slot [i], and the join is fulfilled when the
    count of outstanding promises reaches zero. *)
Definition settle {A} (i : nat) (r : outcome A) (st : join A) : join A :=
  match st with
  | Waiting slots remaining =>
      match r with
      | Return v =>
          match remaining with
          | 1%nat => Fulfilled (values (store i v slots))
          | _ => Waiting (store i v slots) (pred remaining)
          end
      | Throw e => Rejected e
      | Pending => st
      end
  | _ => st
  end.

(** The join after the promises have settled in the order [schedule]. *)
Definition promise_all {A} (promises : list (outcome A)) (schedule : list nat)
  : join A :=
  fold_left (fun st i => settle i (nth i promises Pending) st) schedule
    (Waiting (repeat None (List.length promises)) (List.length promises)).

Definition await_all {A} (promises : list (outcome A)) (schedule : list nat)
  : M (list A) :=
  fun log =>
    (match promise_all promises schedule with
     | Fulfilled vs => Return vs
     | Rejected e => Throw e
     | Waiting _ _ => Pending
     end, log).

(** ** Property access, truthiness, coercions *)

Section Program.

Variable E : Engine.
Variable caps : Capabilities.

(** [base.k] for the property names the program reads (none of which a
    string, a number, a boolean or an array has). *)
Definition member (base : jsval) (k : string) : M jsval :=
  match base with
  | None | Some JNull => throw (typeErrorMessage E base k)
  | Some (JObj fields) => ret (lookup k fields)
  | Some _ => ret None
  end.

(** [base?.k] *)
Definition optional (base : jsval) (k : string) : jsval :=
  match base with
  | Some (JObj fields) => lookup k fields
  | _ => None
  end.

Definition truthy (v : jsval) : bool :=
  match v with
  | None | Some JNull => false
  | Some (JBool b) => b
  | Some (JNum q) => negb (Qeq_bool q 0)
  | Some (JStr s) => negb (String.eqb s "")
  | Some (JArr _) | Some (JObj _) => true
  end.

(** [String(v)] *)
Fixpoint toString (v : json) : string :=
  match v with
  | JNull => "null"
  | JBool true => "true"
  | JBool false => "false"
  | JNum q => numberToString E q
  | JStr s => s
  | JArr items =>
      (fix join_items (l : list json) : string :=
         match l with
         | [] => ""
         | x :: rest =>
             let sx := match x with JNull => "" | _ => toString x end in
             match rest with
             | [] => sx
             | _ => sx ++ "," ++ join_items rest
             end
         end) items
  | JObj _ => "[object Object]"
  end.

(** [v + suffix] for a string [suffix] *)
Definition append (v : jsval) (suffix : string) : string :=
  match v with
  | None => "undefined" ++ suffix
  | Some j => toString j ++ suffix
  end.

(** [text.trim()]: white space and line terminators of ECMAScript, in
    their UTF-8 encodings, are removed at both ends. *)
Definition whitespace : list (list ascii) :=
  map JSON.utf8
    [9; 10; 11; 12; 13; 32; 160; 5760; 8192; 8193; 8194; 8195; 8196; 8197;
     8198; 8199; 8200; 8201; 8202; 8232; 8233; 8239; 8287; 12288; 65279]%Z.

Fixpoint strip_one (ws : list (list ascii)) (s : list ascii)
  : option (list ascii) :=
  match ws with
  | [] => None
  | w :: rest =>
      match JSON.literal w s with
      | Some r => Some r
      | None => strip_one rest s
      end
  end.

Fixpoint strip (ws : list (list ascii)) (n : nat) (s : list ascii)
  : list ascii :=
  match n with
  | O => s
  | S n' =>
      match strip_one ws s with
      | Some r => strip ws n' r
      | None => s
      end
  end.

Definition trim (text : string) : string :=
  let s := list_ascii_of_string text in
  let s1 := strip whitespace (List.length s) s in
  let s2 := strip (map (@rev ascii) whitespace) (List.length s1) (rev s1) in
  string_of_list_ascii (rev s2).

(** *** The discrepancy check

    [ToNumber] on the operands for which [+] is numeric addition;
    [Some None] is [NaN], and [None] marks an operand that [+] would
    turn into a string. *)
Definition toNumber (v : jsval) : option (option Q) :=
  match v with
  | None => Some None
  | Some JNull => Some (Some 0)
  | Some (JBool b) => Some (Some (if b then 1 else 0))
  | Some (JNum q) => Some (Some q)
  | Some (JStr _) | Some (JArr _) | Some (JObj _) => None
  end.

Definition avgScore (h m s : Q) : Q := (h + m + s) / 3.

Definition maxDiff (h m s : Q) : Q :=
  let avg := avgScore h m s in
  Qmax (Qmax (Qabs (h - avg)) (Qabs (m - avg))) (Qabs (s - avg)).

Definition Qgt_bool (x y : Q) : bool := negb (Qle_bool x y).

(** [maxDiff > 2] on the three scores as read from the evaluations. *)
Definition discrepancy (h m s : jsval) : bool :=
  match toNumber h, toNumber m, toNumber s with
  | Some a, Some b, Some c =>
      match a, b, c with
      | Some x, Some y, Some z => Qgt_bool (maxDiff x y z) 2
      | _, _, _ => false
      end
  | _, _, _ => looseDiscrepancy E h m s
  end.

(** ** [agents.js] *)

Definition placeholder (message : string) : json :=
  JObj [("score", JNum 5);
        ("recommendation", JStr "MAYBE");
        ("analysis",
          JObj [("error", JStr message);
                ("note", JStr "Evaluation failed, returning neutral score")])].

(** [JSON.parse(jsonMatch[0])] *)
Definition parse_match (m : string) : M json :=
  match JSON.parse m with
  | Some v => ret v
  | None => throw (syntaxErrorMessage E m)
  end.

(** [Agent.evaluate]: the prompt is filled in from the candidate (only
    [cv_text.substring] can fail there), the capability is awaited, and
    the object found in its text is returned as parsed. *)
Definition evaluate (who : evaluator) (candidate : json) : M json :=
  try_catch
    (_ <- member (Some candidate) "name";;
     cv <- member (Some candidate) "cv_text";;
     match cv with
     | Some (JStr _) => ret tt
     | _ => throw (typeErrorMessage E cv "substring")
     end;;
     responseText <- await (Evaluator who candidate) (invoke caps who candidate);;
     match Regex.exec responseText with
     | Some jsonMatch =>
         evaluation <- parse_match jsonMatch;;
         _ <- member (Some evaluation) "score";;
         ret evaluation
     | None => throw "Invalid JSON response format from agent"
     end)
    (fun message => ret (placeholder message)).

(** [evaluateCandidate]: the three agents are started in the order hr,
    manager, sales; their promises settle in the order [schedule].  The
    join of three promises is fulfilled with three values, so the last
    branch of the destructuring is never taken. *)
Definition evaluateCandidate (candidate : json) (schedule : list nat)
  : M json :=
  try_catch
    (_ <- member (Some candidate) "name";;
     hrPromise <- spawn (evaluate hr candidate);;
     managerPromise <- spawn (evaluate manager candidate);;
     salesPromise <- spawn (evaluate sales candidate);;
     results <- await_all [hrPromise; managerPromise; salesPromise] schedule;;
     match results with
     | [hrEval; managerEval; salesEval] =>
         ret (JObj [("hr", hrEval); ("manager", managerEval);
                    ("sales", salesEval)])
     | _ => ret (JObj [])
     end)
    (fun message => throw message).

(** The three [evaluations.<who>.score] reads of [negotiateScores]. *)
Definition scores (evaluations : json) : M (jsval * jsval * jsval) :=
  hrEval <- member (Some evaluations) "hr";;
  h <- member hrEval "score";;
  managerEval <- member (Some evaluations) "manager";;
  m <- member managerEval "score";;
  salesEval <- member (Some evaluations) "sales";;
  s <- member salesEval "score";;
  ret (h, m, s).

(** [negotiateScores] of the SmartInference variant. *)
Definition negotiateScores (evaluations : json) : M json :=
  try_catch
    ('(h, m, s) <- scores evaluations;;
     if discrepancy h m s then
       responseText <- await (Mediator evaluations) (mediate caps evaluations);;
       match Regex.exec responseText with
       | Some jsonMatch =>
           negotiation <- parse_match jsonMatch;;
           _ <- member (Some negotiation) "consensus_score";;
           ret negotiation
       | None => throw "Failed to parse JSON negotiation from AI response"
       end
     else ret JNull)
    (fun _ => ret JNull).

(** [negotiateScores] of the Gemini variant: without a match it falls
    through to [return null]. *)
Definition negotiateScores_gemini (evaluations : json) : M json :=
  try_catch
    ('(h, m, s) <- scores evaluations;;
     if discrepancy h m s then
       responseText <- await (Mediator evaluations) (mediate caps evaluations);;
       match Regex.exec responseText with
       | Some jsonMatch =>
           negotiation <- parse_match jsonMatch;;
           _ <- member (Some negotiation) "consensus_score";;
           ret negotiation
       | None => ret JNull
       end
     else ret JNull)
    (fun _ => ret JNull).

(** ** [decision.js] *)

(** [JSON.stringify(evaluations.<who>?.analysis).substring(0, 100)]:
    [JSON.stringify(undefined)] is [undefined], which has no
    [substring]. *)
Definition insight (evaluations : json) (who : evaluator) : M unit :=
  e <- member (Some evaluations) (key who);;
  match optional e "analysis" with
  | Some _ => ret tt
  | None => throw (typeErrorMessage E None "substring")
  end.

(** What can fail while either prompt of [decision.js] is built. *)
Definition insights (evaluations : json) : M unit :=
  insight evaluations hr;;
  insight evaluations manager;;
  insight evaluations sales.

Definition generateFinalDecision (evaluations negotiationResult : json)
  : M json :=
  try_catch
    (insights evaluations;;
     text <- await (Judge evaluations negotiationResult)
               (judge caps evaluations negotiationResult);;
     match Regex.exec text with
     | Some jsonMatch => parse_match jsonMatch
     | None => throw "Failed to parse JSON decision from AI response"
     end)
    (fun _ => ret JNull).

Definition generateFollowUpQuestion (evaluations : json) : M json :=
  try_catch
    (insights evaluations;;
     text <- await (Clarifier evaluations) (clarify caps evaluations);;
     ret (JStr (trim text)))
    (fun _ => ret JNull).

Definition followUpSentence : string :=
  " A follow-up question is recommended to clarify ambiguities.".

Definition fallback (message : string) : json :=
  JObj [("final_decision", JStr "MAYBE");
        ("confidence_score", JNum (1 # 2));
        ("reasoning",
          JStr "Decision could not be fully evaluated. Recommend manual review.");
        ("error", JStr message);
        ("details", JObj [])].

(** [decision.k = v] on the parsed decision. *)
Definition set_member (decision : json) (k : string) (v : json) : json :=
  match decision with
  | JObj fields => JObj (assign k v fields)
  | other => other
  end.

(** [decision.final_decision === 'MAYBE' && !decision.follow_up_question] *)
Definition wants_follow_up (decision : json) : M bool :=
  d <- member (Some decision) "final_decision";;
  match d with
  | Some (JStr outcome) =>
      if String.eqb outcome "MAYBE" then
        q <- member (Some decision) "follow_up_question";;
        ret (negb (truthy q))
      else ret false
  | _ => ret false
  end.

Definition decideHiring (evaluations : json) : M json :=
  try_catch
    (negotiationResult <- negotiateScores evaluations;;
     decision <- generateFinalDecision evaluations negotiationResult;;
     ask <- wants_follow_up decision;;
     if ask then
       followUp <- generateFollowUpQuestion evaluations;;
       if truthy (Some followUp) then
         let decision1 := set_member decision "follow_up_question" followUp in
         reasoning <- member (Some decision1) "reasoning";;
         ret (set_member decision1 "reasoning"
                (JStr (append reasoning followUpSentence)))
       else ret decision
     else ret decision)
    (fun message => ret (fallback message)).

End Program.

(** * Samples and specification-level definitions *)

(** ** A sample engine and sample inputs

    The messages are those of V8.  Integers are printed in decimal; the
    examples print no other number. *)

Definition decimal (z : Z) : string :=
  let digits := fix digits (n : nat) (p : Z) (acc : string) : string :=
    match n with
    | O => acc
    | S n' =>
        let acc' := String (JSON.byte (48 + p mod 10)) acc in
        if (p <? 10)%Z then acc' else digits n' (p / 10)%Z acc'
    end in
  if (z <? 0)%Z then "-" ++ digits (Z.to_nat (- z)) (- z)%Z ""
  else digits (S (Z.to_nat z)) z "".

Definition v8 : Engine := {|
  syntaxErrorMessage := fun _ => "Unexpected token in JSON";
  typeErrorMessage := fun base k =>
    "Cannot read properties of "
    ++ (match base with Some JNull => "null" | _ => "undefined" end)
    ++ " (reading '" ++ k ++ "')";
  numberToString := fun q => decimal (Qnum (Qred q) / Zpos (Qden (Qred q)));
  looseDiscrepancy := fun _ _ _ => false
|}.

Definition profile : list (string * json) :=
  [("id", JStr "c-1"); ("name", JStr "Alice"); ("email", JStr "alice@example.org");
   ("cv_text", JStr "Ten years of backend work."); ("role_applying", JStr "Engineer")].

Definition alice : json := JObj profile.

(** An evaluation as an agent is asked to give it. *)
Definition opinion (score : Q) (recommendation : string) : json :=
  JObj [("score", JNum score); ("recommendation", JStr recommendation);
        ("analysis", JObj [("concerns", JStr "none")])].

Definition evaluationSet (hrEval managerEval salesEval : json) : json :=
  JObj [("hr", hrEval); ("manager", managerEval); ("sales", salesEval)].

(** Scenario A of the spec: 8, 7, 8.  Scenario B: 9, 4, 8. *)
Definition scenarioA : json :=
  evaluationSet (opinion 8 "YES") (opinion 7 "YES") (opinion 8 "YES").


(** Capabilities that answer as they are asked to. *)
Definition obliging : Capabilities := {|
  invoke := fun _ _ =>
    Text (json_text "{'score': 8, 'recommendation': 'YES', 'analysis': {'concerns': 'none'}}");
  mediate := fun _ =>
    Text (json_text "{'consensus_score': 7, 'reasoning': 'Strong skills, mixed fit.'}");
  judge := fun _ _ =>
    Text (json_text "{'final_decision': 'HIRE', 'confidence_score': 0.8, 'reasoning': 'Solid.', 'details': {}}");
  clarify := fun _ => Text "Can you describe a project you led?"
|}.

(** ** Failing branches and what a branch contributes *)

(** The three ways an evaluator invocation fails, with the message the
    [catch] of [Agent.evaluate] then sees. *)
Inductive fails (E : Engine) (caps : Capabilities) (who : evaluator)
  (candidate : json) : string -> Prop :=
| fails_capability message :
    invoke caps who candidate = Failure message ->
    fails E caps who candidate message
| fails_no_object text :
    invoke caps who candidate = Text text ->
    Regex.exec text = None ->
    fails E caps who candidate "Invalid JSON response format from agent"
| fails_unparseable text jsonMatch :
    invoke caps who candidate = Text text ->
    Regex.exec text = Some jsonMatch ->
    JSON.parse jsonMatch = None ->
    fails E caps who candidate (syntaxErrorMessage E jsonMatch).

(** What one branch contributes, as a function of the answer of its own
    capability. *)
Definition contribution (E : Engine) (r : response) : json :=
  match r with
  | Failure message => placeholder message
  | Text text =>
      match Regex.exec text with
      | None => placeholder "Invalid JSON response format from agent"
      | Some jsonMatch =>
          match JSON.parse jsonMatch with
          | None => placeholder (syntaxErrorMessage E jsonMatch)
          | Some evaluation => evaluation
          end
      end
  end.



(** Scenario C of the spec: the manager evaluator times out. *)
Definition managerTimesOut : Capabilities := {|
  invoke := fun who candidate =>
    match who with
    | manager => Failure "Request timed out"
    | _ => invoke obliging who candidate
    end;
  mediate := mediate obliging;
  judge := judge obliging;
  clarify := clarify obliging
|}.


(** ** The discrepancy detector and the mediator *)



(** [evaluations.<who>.score] when nothing on the way is missing. *)
Definition score_of (evaluations : json) (who : evaluator) : jsval :=
  optional (optional (Some evaluations) (key who)) "score".


(** What both [negotiateScores] and [generateFinalDecision] make of the
    answer of their capability: the object parsed from it, or [null]. *)
Definition object_or_null (r : response) : json :=
  match r with
  | Failure _ => JNull
  | Text text =>
      match Regex.exec text with
      | None => JNull
      | Some jsonMatch =>
          match JSON.parse jsonMatch with
          | Some v => v
          | None => JNull
          end
      end
  end.

(** Computations that log nothing and do not stay pending. *)
Definition silent {A} (m : M A) : Prop :=
  exists r, r <> Pending /\ forall log, m log = (r, log).

(** ** The decision synthesizer *)

(** Whether the prompts of [decision.js] can be built: each evaluator's
    entry has an [analysis]. *)
Definition prompt_builds (evaluations : json) : bool :=
  match optional (optional (Some evaluations) "hr") "analysis",
        optional (optional (Some evaluations) "manager") "analysis",
        optional (optional (Some evaluations) "sales") "analysis" with
  | Some _, Some _, Some _ => true
  | _, _, _ => false
  end.

(** The outcome is MAYBE and no clarification question is attached. *)
Definition maybe_without_question (decision : json) : bool :=
  match optional (Some decision) "final_decision" with
  | Some (JStr outcome) =>
      String.eqb outcome "MAYBE"
      && negb (truthy (optional (Some decision) "follow_up_question"))
  | _ => false
  end.

(** The decision with the question attached and the sentence appended to
    its rationale. *)
Definition attach (E : Engine) (decision followUp : json) : json :=
  let decision1 := set_member decision "follow_up_question" followUp in
  set_member decision1 "reasoning"
    (JStr (append E (optional (Some decision1) "reasoning") followUpSentence)).

(** The vocabulary and the range the spec gives a Decision. *)
Definition valid_decision (decision : json) : bool :=
  match optional (Some decision) "final_decision",
        optional (Some decision) "confidence_score" with
  | Some (JStr outcome), Some (JNum confidence) =>
      (String.eqb outcome "HIRE" || String.eqb outcome "REJECT"
       || String.eqb outcome "MAYBE")
      && Qle_bool 0 confidence && Qle_bool confidence 1
  | _, _ => false
  end.

(** The message of the [TypeError] that reading [final_decision] of
    [null] raises: the one error the [catch] of [decideHiring] sees. *)
Definition noDecision (E : Engine) : string :=
  typeErrorMessage E (Some JNull) "final_decision".

(** A capability has failed entirely: it rejected, or its text holds no
    object that parses. *)
Definition unusable (r : response) : bool :=
  match r with
  | Failure _ => true
  | Text text =>
      match Regex.exec text with
      | None => true
      | Some jsonMatch =>
          match JSON.parse jsonMatch with
          | Some _ => false
          | None => true
          end
      end
  end.




(** A judgment capability that cannot be reached. *)
Definition judgeDown : Capabilities := {|
  invoke := invoke obliging;
  mediate := mediate obliging;
  judge := fun _ _ => Failure "503 Service Unavailable";
  clarify := clarify obliging
|}.



(** * More of the code: definitions *)

From Stdlib Require Import Lqa.

(** ** Reading the evaluations *)

(** [evaluations.<who>], [undefined] when there is no such entry. *)
Definition entry (evaluations : json) (who : evaluator) : jsval :=
  optional (Some evaluations) (key who).

(** A value whose properties can be read: anything but [undefined] and
    [null]. *)
Definition readable (v : jsval) : bool :=
  match v with
  | None | Some JNull => false
  | Some _ => true
  end.

(** An evaluator's result as it comes when the agent leaves the
    [analysis] out. *)
Definition bareOpinion (score : Q) (recommendation : string) : json :=
  JObj [("score", JNum score); ("recommendation", JStr recommendation)].

(** The hr agent answered with an empty object; the two others are far
    apart. *)
Definition emptyAnswerSet : json :=
  evaluationSet (JObj []) (opinion 1 "NO") (opinion 10 "STRONG_YES").


(** The sales agent left its [analysis] out. *)
Definition bareSalesSet : json :=
  evaluationSet (opinion 8 "YES") (opinion 7 "YES") (bareOpinion 8 "YES").

(** All three evaluators are unreachable, and so is the judgment
    capability. *)
Definition allDown : Capabilities := {|
  invoke := fun _ _ => Failure "ECONNREFUSED";
  mediate := fun _ => Failure "ECONNREFUSED";
  judge := fun _ _ => Failure "ECONNREFUSED";
  clarify := fun _ => Failure "ECONNREFUSED"
|}.

(** ** [callSmartInference] of [agents.js]

    One HTTPS exchange as the events the handlers of the request see, in
    the order they arrive: chunks of the response body, the end of the
    response, or an error of the request.  The status code comes with the
    response. *)

Inductive http_event : Type :=
| Chunk (data : string)
| EndOfResponse
| RequestError (message : string).

Record exchange : Type := {
  statusCode : Z;
  events : list http_event
}.

(** The handler of [end]: a status from 200 to 299 resolves the promise
    with the [text] of the parsed body, and rejects it when the body does
    not parse or [text] cannot be read (the body is [null]); any other
    status rejects it with the status and the body in the message. *)
Definition on_end (status : Z) (data : string) : outcome jsval :=
  if (200 <=? status)%Z && (status <? 300)%Z then
    match JSON.parse data with
    | Some (JObj fields) => Return (lookup "text" fields)
    | Some JNull | None =>
        Throw "Failed to parse JSON response from SmartInference"
    | Some _ => Return None
    end
  else
    Throw ("Request failed with status code " ++ decimal status ++ ": " ++ data).

(** The promise after the events: [data] is what the chunks have added up
    to; the first end or error settles it, and with neither it stays
    pending. *)
Fixpoint settle_exchange (status : Z) (events : list http_event)
  (data : string) : outcome jsval :=
  match events with
  | [] => Pending
  | Chunk chunk :: rest => settle_exchange status rest (data ++ chunk)
  | EndOfResponse :: _ => on_end status data
  | RequestError message :: _ => Throw message
  end.

Definition callSmartInference (x : exchange) : outcome jsval :=
  settle_exchange (statusCode x) (events x) "".


Definition body (chunks : list string) : string :=
  fold_right String.append "" chunks.

(** ** The Gemini variant of [Agent.evaluate] and [evaluateCandidate] *)

(** It differs from the SmartInference variant in the message of the
    error for a text without a match. *)
Definition evaluate_gemini (E : Engine) (caps : Capabilities)
  (who : evaluator) (candidate : json) : M json :=
  try_catch
    (_ <- member E (Some candidate) "name";;
     cv <- member E (Some candidate) "cv_text";;
     match cv with
     | Some (JStr _) => ret tt
     | _ => throw (typeErrorMessage E cv "substring")
     end;;
     responseText <- await (Evaluator who candidate) (invoke caps who candidate);;
     match Regex.exec responseText with
     | None => throw "Invalid response format"
     | Some jsonMatch =>
         evaluation <- parse_match E jsonMatch;;
         _ <- member E (Some evaluation) "score";;
         ret evaluation
     end)
    (fun message => ret (placeholder message)).

(** The constructor of its [Agent] calls [genAI.getGenerativeModel];
    [genAI] is [undefined] until [initializeAgents] has run, which
    [initialized] records. *)
Definition newAgent (E : Engine) (initialized : bool) : M unit :=
  if initialized then ret tt
  else throw (typeErrorMessage E None "getGenerativeModel").

Definition evaluateCandidate_gemini (E : Engine) (caps : Capabilities)
  (initialized : bool) (candidate : json) (schedule : list nat) : M json :=
  try_catch
    (_ <- member E (Some candidate) "name";;
     newAgent E initialized;;
     newAgent E initialized;;
     newAgent E initialized;;
     hrPromise <- spawn (evaluate_gemini E caps hr candidate);;
     managerPromise <- spawn (evaluate_gemini E caps manager candidate);;
     salesPromise <- spawn (evaluate_gemini E caps sales candidate);;
     results <- await_all [hrPromise; managerPromise; salesPromise] schedule;;
     match results with
     | [hrEval; managerEval; salesEval] =>
         ret (JObj [("hr", hrEval); ("manager", managerEval);
                    ("sales", salesEval)])
     | _ => ret (JObj [])
     end)
    (fun message => throw message).

(** An endpoint that answers 200 with a body that has no [text]. *)
Definition noTextExchange : exchange := {|
  statusCode := 200;
  events := [Chunk (json_text "{'resu"); Chunk (json_text "lt': 'ok'}");
             EndOfResponse]
|}.

(** An endpoint that answers 503 with a body that would be a valid
    answer. *)
Definition unavailableExchange : exchange := {|
  statusCode := 503;
  events := [Chunk (json_text "{'text': 'retry later'}"); EndOfResponse;
             RequestError "socket hang up"]
|}.




(** An evaluator that answers in prose only. *)
Definition proseOnly : Capabilities := {|
  invoke := fun _ _ => Text "I would rate this candidate eight out of ten.";
  mediate := mediate obliging;
  judge := judge obliging;
  clarify := clarify obliging
|}.

(** ** The scoring utilities of [decision.js]

    The score is a JavaScript number: [None] is [NaN], which every
    comparison answers with false. *)

Definition atLeast (score : option Q) (bound : Q) : bool :=
  match score with
  | Some q => Qle_bool bound q
  | None => false
  end.

Definition getScoreColor (score : option Q) : string :=
  if atLeast score 8 then "green"
  else if atLeast score 6 then "yellow"
  else if atLeast score 4 then "orange"
  else "red".

Definition getScoreLabel (score : option Q) : string :=
  if atLeast score 9 then "Excellent"
  else if atLeast score 7 then "Good"
  else if atLeast score 5 then "Average"
  else if atLeast score 3 then "Poor"
  else "Critical".

(** How good a colour and a label are. *)
Definition colorRank (color : string) : nat :=
  if String.eqb color "green" then 3
  else if String.eqb color "yellow" then 2
  else if String.eqb color "orange" then 1
  else 0.

Definition labelRank (label : string) : nat :=
  if String.eqb label "Excellent" then 4
  else if String.eqb label "Good" then 3
  else if String.eqb label "Average" then 2
  else if String.eqb label "Poor" then 1
  else 0.

(** ** The cache module ([redis.js])

    The state of the module: the in-memory [Map], and the timers that
    [setRedis] has set and that have not fired, each with the time it is
    due and the key it deletes.  Time is in milliseconds. *)

Record cache : Type := {
  memoryCache : string -> option string;
  timers : list (Z * string);
  clock : Z
}.

Definition emptyCache : cache := {|
  memoryCache := fun _ => None;
  timers := [];
  clock := 0
|}.

Definition mapSet (key value : string) (m : string -> option string)
  : string -> option string :=
  fun k => if String.eqb k key then Some value else m k.

Definition mapDelete (key : string) (m : string -> option string)
  : string -> option string :=
  fun k => if String.eqb k key then None else m k.

(** What the Redis client does with one call: there is no client
    ([initializeRedis] returned [null]), it answers, or it throws. *)
Inductive redis (A : Type) : Type :=
| NoClient
| Answers (a : A)
| Breaks (message : string).

Arguments NoClient {A}.
Arguments Answers {A} a.
Arguments Breaks {A} message.

(** The delay of [setTimeout]: a delay above 2^31 - 1 milliseconds is
    replaced by 1. *)
Definition timeoutDelay (ms : Z) : Z :=
  if (ms <=? 2147483647)%Z then ms else 1%Z.

Definition setRedis (client : redis unit) (key value : string)
  (expirationSeconds : Z) (c : cache) : cache :=
  match client with
  | Answers _ => c
  | NoClient =>
      {| memoryCache := mapSet key value (memoryCache c);
         timers :=
           if (0 <? expirationSeconds)%Z
           then (timers c
                 ++ [((clock c + timeoutDelay (expirationSeconds * 1000))%Z, key)])%list
           else timers c;
         clock := clock c |}
  | Breaks _ =>
      {| memoryCache := mapSet key value (memoryCache c);
         timers := timers c;
         clock := clock c |}
  end.

(** [memoryCache.get(key) || null] *)
Definition memoryGet (key : string) (c : cache) : option string :=
  match memoryCache c key with
  | Some value => if String.eqb value "" then None else Some value
  | None => None
  end.

Definition getRedis (client : redis (option string)) (key : string)
  (c : cache) : option string :=
  match client with
  | Answers reply => reply
  | NoClient | Breaks _ => memoryGet key c
  end.

Definition deleteRedis (client : redis unit) (key : string) (c : cache)
  : cache :=
  match client with
  | Answers _ => c
  | NoClient | Breaks _ =>
      {| memoryCache := mapDelete key (memoryCache c);
         timers := timers c;
         clock := clock c |}
  end.

(** Time passes: the timers that are due fire, each deleting its key. *)
Fixpoint fire (now : Z) (pending : list (Z * string))
  (m : string -> option string)
  : list (Z * string) * (string -> option string) :=
  match pending with
  | [] => ([], m)
  | (due, key) :: rest =>
      if (due <=? now)%Z then fire now rest (mapDelete key m)
      else let (left, m') := fire now rest m in ((due, key) :: left, m')
  end.

Definition advance (ms : Z) (c : cache) : cache :=
  let now := (clock c + ms)%Z in
  let (left, m) := fire now (timers c) (memoryCache c) in
  {| memoryCache := m; timers := left; clock := now |}.

(** Whether a timer that deletes [key] is due at [now]. *)
Definition dueFor (now : Z) (pending : list (Z * string)) (key : string)
  : bool :=
  existsb (fun t => (fst t <=? now)%Z && String.eqb key (snd t)) pending.

(** ** The routes of [server.js] around the agents

    A route answers with a status code and a JSON payload; what it gives
    to the database and what it serializes into the cache (key, value
    before [JSON.stringify], time to live) are kept beside the answer.
    The database is outside: each of its calls succeeds, or throws. *)

Record reply : Type := {
  status : Z;
  payload : json
}.
















(** ** The pages of the front end

    The text of an answer is a JavaScript string: a sequence of UTF-16
    code units. *)

Definition text16 : Type := list N.

(** A literal of the source, all ASCII. *)
Definition units (s : string) : text16 :=
  map N_of_ascii (list_ascii_of_string s).

Fixpoint startsWith (needle t : text16) : bool :=
  match needle, t with
  | [], _ => true
  | n :: needle', c :: t' => N.eqb n c && startsWith needle' t'
  | _ :: _, [] => false
  end.

(** [text.includes(needle)] *)
Fixpoint includes (t needle : text16) : bool :=
  startsWith needle t
  || match t with
     | [] => false
     | _ :: t' => includes t' needle
     end.

(** [text.split(sep).length] for a separator of one unit. *)
Definition pieces (t : text16) (sep : N) : nat :=
  S (count_occ N.eq_dec t sep).

Definition capital (c : N) : bool := ((65 <=? c) && (c <=? 90))%N.

(** [text.match(/[A-Z]{5,}/g)] is not null: five capitals in a row
    somewhere; [run] counts the capitals just read. *)
Fixpoint shouts (run : nat) (t : text16) : bool :=
  match t with
  | [] => false
  | c :: t' =>
      if capital c
      then if (4 <=? run)%nat then true else shouts (S run) t'
      else shouts 0 t'
  end.

Definition newline : N := 10.
Definition space : N := 32.

Module InterviewPage.

Definition detectFraud (text : text16) : Z :=
  let score := 0%Z in
  let score :=
    if (500 <? List.length text)%nat && (pieces text newline <? 3)%nat
    then (score + 20)%Z else score in
  let score :=
    if includes text (units "copy") || includes text (units "paste")
    then (score + 15)%Z else score in
  let score := if shouts 0 text then (score + 10)%Z else score in
  let score :=
    if (pieces text space <? 5)%nat then (score - 30)%Z else score in
  Z.max 0 (Z.min 100 score).

End InterviewPage.

Module DecisionPage.

(** The chat of the interview, in the same file. *)
Definition detectFraud (text : text16) : Z :=
  let score := 0%Z in
  let score :=
    if (500 <? List.length text)%nat && (pieces text newline <? 3)%nat
    then (score + 20)%Z else score in
  let score :=
    if includes text (units "copy") || includes text (units "paste")
    then (score + 15)%Z else score in
  let score := if shouts 0 text then (score + 10)%Z else score in
  Z.max 0 (Z.min 100 score).

(** [v === 'label'] *)
Definition strictEquals (v : json) (label : string) : bool :=
  match v with
  | JStr s => String.eqb s label
  | _ => false
  end.

(** [decision?.final_decision || 'PENDING'] *)
Definition finalDecision (decision : jsval) : json :=
  match optional decision "final_decision" with
  | Some v => if truthy (Some v) then v else JStr "PENDING"
  | None => JStr "PENDING"
  end.

Definition getDecisionColor (decision : json) : string :=
  if strictEquals decision "HIRE" then "#4ECDC4"
  else if strictEquals decision "PASS" then "#FF6B6B"
  else "#FFA500".

Definition getDecisionMessage (decision : json) : string :=
  if strictEquals decision "HIRE" then "🎉 Congratulations! You're hired!"
  else if strictEquals decision "PASS" then "Thank you for your interest"
  else "We'd like to learn more about you".

(** What the badge of the header renders. *)
Definition badge (decision : json) : list string :=
  (if strictEquals decision "HIRE" then ["✅ HIRED"] else [])
  ++ (if strictEquals decision "PASS" then ["❌ NOT SELECTED"] else [])
  ++ (if strictEquals decision "MAYBE" then ["⏳ PENDING REVIEW"] else []).

End DecisionPage.

(** Both pages warn above 30 and colour the meter by the same levels. *)
Definition fraudWarning (fraudScore : Z) : bool := (30 <? fraudScore)%Z.

Definition meterColor (fraudScore : Z) : string :=
  if (50 <? fraudScore)%Z then "#FF6B6B"
  else if (30 <? fraudScore)%Z then "#FFA500"
  else "#4ECDC4".

(** * Examples: the model on concrete inputs *)

Example parse_evaluation :
  JSON.parse (json_text
    "{ 'score': 7.5, 'recommendation': 'YES', 'analysis': {'gaps': null, 'tags': [1, true]} }")
  = Some (JObj [("score", JNum (15 # 2)); ("recommendation", JStr "YES");
                ("analysis", JObj [("gaps", JNull);
                                   ("tags", JArr [JNum 1; JBool true])])]).
Proof. vm_compute. reflexivity. Qed.

Example parse_rejects_trailing : JSON.parse "{} }" = None.
Proof. reflexivity. Qed.

Example parse_duplicate_key :
  JSON.parse (json_text "{'a':1,'b':2,'a':-3e1}")
  = Some (JObj [("a", JNum (-30)); ("b", JNum 2)]).
Proof. vm_compute. reflexivity. Qed.

Example parse_escapes :
  JSON.parse (json_text "['a\u0041\n', 1.25e2, -0.5]")
  = Some (JArr [JStr (String "a" (String "A" (String "010" EmptyString)));
                JNum 125; JNum (- (1 # 2))]).
Proof. vm_compute. reflexivity. Qed.

Example parse_nested :
  JSON.parse "[[[[[1]]]],[2,[3,[4,[5]]]],{}]"
  = Some (JArr [JArr [JArr [JArr [JArr [JNum 1]]]];
                JArr [JNum 2; JArr [JNum 3; JArr [JNum 4; JArr [JNum 5]]]];
                JObj []]).
Proof. vm_compute. reflexivity. Qed.

Example exec_greedy :
  Regex.exec "Sure: {'a':1} and {'b':2}." = Some "{'a':1} and {'b':2}".
Proof. reflexivity. Qed.

Example exec_no_object : Regex.exec "} no object {" = None.
Proof. reflexivity. Qed.

Example join_short_circuits :
  promise_all [Return 1%nat; Throw "timeout"; Return 3%nat] [1%nat]
  = Rejected "timeout".
Proof. reflexivity. Qed.

Example join_waits :
  promise_all [Return 1%nat; Return 2%nat; Return 3%nat] [2%nat; 0%nat]
  = Waiting [Some 1%nat; None; Some 3%nat] 1.
Proof. reflexivity. Qed.

(** * Proofs *)

(** ** The fuel of the parser *)

Lemma skip_ws_length s : (List.length (JSON.skip_ws s) <= List.length s)%nat.
Proof.
  induction s as [|c s IH]; simpl; [lia|].
  destruct (JSON.is_ws c); simpl; lia.
Qed.

Lemma starts_length c s r :
  JSON.starts c s = Some r -> List.length s = S (List.length r).
Proof.
  destruct s as [|c' s]; simpl; [discriminate|].
  destruct (Ascii.eqb c c'); [|discriminate]. now intros [= <-].
Qed.

Lemma literal_length lit : forall s r,
  JSON.literal lit s = Some r ->
  List.length s = (List.length lit + List.length r)%nat.
Proof.
  induction lit as [|a lit IH]; intros s r; simpl.
  - now intros [= <-].
  - destruct s as [|b s]; [discriminate|].
    destruct (Ascii.eqb a b); [|discriminate].
    intros H. apply IH in H. simpl. lia.
Qed.

Lemma digits_length s : forall acc k m k' r,
  JSON.digits s acc k = (m, k', r) -> (List.length r <= List.length s)%nat.
Proof.
  induction s as [|c s IH]; intros acc k m k' r; simpl.
  - intros [= _ _ <-]. simpl. lia.
  - destruct (JSON.digit c).
    + intros H. apply IH in H. lia.
    + intros [= _ _ <-]. simpl. lia.
Qed.

Lemma int_part_length s m r :
  JSON.int_part s = Some (m, r) -> (List.length r < List.length s)%nat.
Proof.
  unfold JSON.int_part. destruct s as [|c s]; [discriminate|].
  destruct (JSON.digit c) as [[|p|p]|]; try discriminate.
  - intros [= _ <-]. simpl. lia.
  - destruct (JSON.digits s (Z.pos p) 1) as [[m' k] r'] eqn:Hd.
    intros [= _ <-]. apply digits_length in Hd. simpl. lia.
  - destruct (JSON.digits s (Z.neg p) 1) as [[m' k] r'] eqn:Hd.
    intros [= _ <-]. apply digits_length in Hd. simpl. lia.
Qed.

Lemma frac_part_length m s m' k r :
  JSON.frac_part m s = Some (m', k, r) -> (List.length r <= List.length s)%nat.
Proof.
  unfold JSON.frac_part. destruct (JSON.starts "." s) as [r0|] eqn:Hs.
  - apply starts_length in Hs.
    destruct (JSON.digits r0 m 0) as [[m0 [|k0]] r1] eqn:Hd; [discriminate|].
    intros [= _ _ <-]. apply digits_length in Hd. lia.
  - intros [= _ _ <-]. lia.
Qed.

Lemma exponent_length neg s e r :
  JSON.exponent neg s = Some (e, r) -> (List.length r <= List.length s)%nat.
Proof.
  unfold JSON.exponent.
  destruct (JSON.digits s 0 0) as [[e0 [|k0]] r0] eqn:Hd; [discriminate|].
  intros [= _ <-]. now apply digits_length in Hd.
Qed.

Lemma exp_part_length s e r :
  JSON.exp_part s = Some (e, r) -> (List.length r <= List.length s)%nat.
Proof.
  unfold JSON.exp_part. destruct s as [|c s]; [intros [= _ <-]; lia|].
  destruct (Ascii.eqb c "e" || Ascii.eqb c "E"); [|intros [= _ <-]; lia].
  destruct (JSON.starts "+" s) as [r1|] eqn:Hp.
  - apply starts_length in Hp. intros H. apply exponent_length in H. simpl. lia.
  - destruct (JSON.starts "-" s) as [r1|] eqn:Hm.
    + apply starts_length in Hm. intros H. apply exponent_length in H. simpl. lia.
    + intros H. apply exponent_length in H. simpl. lia.
Qed.

Lemma number_length s q r :
  JSON.number s = Some (q, r) -> (List.length r < List.length s)%nat.
Proof.
  unfold JSON.number.
  assert (Hsign : forall s1, (List.length s1 <= List.length s)%nat ->
            match JSON.int_part s1 with
            | Some (m, s2) =>
                match JSON.frac_part m s2 with
                | Some (m', k, s3) =>
                    match JSON.exp_part s3 with
                    | Some (e, s4) => (List.length s4 < List.length s)%nat
                    | None => True
                    end
                | None => True
                end
            | None => True
            end).
  { intros s1 Hle.
    destruct (JSON.int_part s1) as [[m s2]|] eqn:Hi; [|exact I].
    destruct (JSON.frac_part m s2) as [[[m' k] s3]|] eqn:Hf; [|exact I].
    destruct (JSON.exp_part s3) as [[e s4]|] eqn:He; [|exact I].
    apply int_part_length in Hi. apply frac_part_length in Hf.
    apply exp_part_length in He. lia. }
  destruct (JSON.starts "-" s) as [r0|] eqn:Hs.
  - apply starts_length in Hs. specialize (Hsign r0 ltac:(lia)).
    destruct (JSON.int_part r0) as [[m s2]|]; [|discriminate].
    destruct (JSON.frac_part m s2) as [[[m' k] s3]|]; [|discriminate].
    destruct (JSON.exp_part s3) as [[e s4]|]; [|discriminate].
    now intros [= _ <-].
  - specialize (Hsign s ltac:(lia)).
    destruct (JSON.int_part s) as [[m s2]|]; [|discriminate].
    destruct (JSON.frac_part m s2) as [[[m' k] s3]|]; [|discriminate].
    destruct (JSON.exp_part s3) as [[e s4]|]; [|discriminate].
    now intros [= _ <-].
Qed.

Lemma hex4_length s u r :
  JSON.hex4 s = Some (u, r) -> List.length s = (4 + List.length r)%nat.
Proof.
  unfold JSON.hex4. destruct s as [|a [|b [|c [|d s]]]]; try discriminate.
  destruct (JSON.hexdigit a), (JSON.hexdigit b), (JSON.hexdigit c),
    (JSON.hexdigit d); try discriminate.
  now intros [= _ <-].
Qed.

Lemma unicode_escape_length u s cp r :
  JSON.unicode_escape u s = (cp, r) -> (List.length r <= List.length s)%nat.
Proof.
  unfold JSON.unicode_escape.
  destruct ((55296 <=? u)%Z && (u <? 56320)%Z); [|intros [= _ <-]; lia].
  destruct (JSON.literal _ s) as [r'|] eqn:Hl; [|intros [= _ <-]; lia].
  apply literal_length in Hl.
  destruct (JSON.hex4 r') as [[lo r'']|] eqn:Hh; [|intros [= _ <-]; lia].
  apply hex4_length in Hh.
  destruct ((56320 <=? lo)%Z && (lo <? 57344)%Z); intros [= _ <-]; simpl in *; lia.
Qed.

(** A string literal is read with fuel to spare: one more than the
    characters left is enough, and more changes nothing. *)
Lemma chars_fuel n : forall m s acc,
  (List.length s < n)%nat -> (List.length s < m)%nat ->
  JSON.chars n s acc = JSON.chars m s acc.
Proof.
  induction n as [|n IH]; intros m s acc Hn Hm; [lia|].
  destruct m as [|m]; [lia|].
  destruct s as [|c s]; [reflexivity|]. simpl in Hn, Hm. simpl.
  destruct (Ascii.eqb c "034"); [reflexivity|].
  destruct (Ascii.eqb c "\").
  - destruct (JSON.starts "u" s) as [r1|] eqn:Hu.
    + apply starts_length in Hu.
      destruct (JSON.hex4 r1) as [[u r2]|] eqn:Hh; [|reflexivity].
      apply hex4_length in Hh.
      destruct (JSON.unicode_escape u r2) as [cp r3] eqn:He.
      apply unicode_escape_length in He. apply IH; lia.
    + destruct s as [|e r1]; [reflexivity|].
      destruct (JSON.simple_escape e); [|reflexivity].
      simpl in Hn, Hm. apply IH; lia.
  - destruct (nat_of_ascii c <? 32)%nat; [reflexivity|]. apply IH; lia.
Qed.

Lemma chars_length n : forall s acc str r,
  JSON.chars n s acc = Some (str, r) -> (List.length r < List.length s)%nat.
Proof.
  induction n as [|n IH]; intros s acc str r; simpl; [discriminate|].
  destruct s as [|c s]; [discriminate|].
  destruct (Ascii.eqb c "034"); [intros [= _ <-]; simpl; lia|].
  destruct (Ascii.eqb c "\").
  - destruct (JSON.starts "u" s) as [r1|] eqn:Hu.
    + apply starts_length in Hu.
      destruct (JSON.hex4 r1) as [[u r2]|] eqn:Hh; [|discriminate].
      apply hex4_length in Hh.
      destruct (JSON.unicode_escape u r2) as [cp r3] eqn:He.
      apply unicode_escape_length in He.
      intros H. apply IH in H. simpl. lia.
    + destruct s as [|e r1]; [discriminate|].
      destruct (JSON.simple_escape e); [|discriminate].
      intros H. apply IH in H. simpl. lia.
  - destruct (nat_of_ascii c <? 32)%nat; [discriminate|].
    intros H. apply IH in H. simpl. lia.
Qed.

Lemma string_literal_length s k r :
  JSON.string_literal s = Some (k, r) -> (List.length r < List.length s)%nat.
Proof.
  unfold JSON.string_literal.
  destruct (JSON.starts "034" s) as [r0|] eqn:Hs; [|discriminate].
  apply starts_length in Hs. intros H. apply chars_length in H. lia.
Qed.

Lemma scalar_length s v r :
  JSON.scalar s = Some (v, r) -> (List.length r < List.length s)%nat.
Proof.
  unfold JSON.scalar.
  destruct (JSON.starts "034" s).
  - destruct (JSON.string_literal s) as [[str r']|] eqn:Hs; [|discriminate].
    intros [= _ <-]. now apply string_literal_length in Hs.
  - unfold JSON.keyword.
    destruct (JSON.literal _ s) eqn:H1.
    { intros [= _ <-]. apply literal_length in H1. simpl in H1. lia. }
    destruct (JSON.literal (list_ascii_of_string "false") s) eqn:H2.
    { intros [= _ <-]. apply literal_length in H2. simpl in H2. lia. }
    destruct (JSON.literal (list_ascii_of_string "null") s) eqn:H3.
    { intros [= _ <-]. apply literal_length in H3. simpl in H3. lia. }
    destruct (JSON.number s) as [[q r']|] eqn:Hn; [|discriminate].
    intros [= _ <-]. now apply number_length in Hn.
Qed.

(** Whatever is parsed takes at least one character. *)
Lemma parser_length n :
  (forall s v r, JSON.value n s = Some (v, r) ->
                 (List.length r < List.length s)%nat)
  /\ (forall s acc v r, JSON.members n s acc = Some (v, r) ->
                        (List.length r < List.length s)%nat)
  /\ (forall s acc v r, JSON.elements n s acc = Some (v, r) ->
                        (List.length r < List.length s)%nat).
Proof.
  induction n as [|n (IHv & IHm & IHe)];
    [repeat split; intros; discriminate|].
  repeat split.
  - intros s v r. simpl. assert (Hws := skip_ws_length s).
    destruct (JSON.starts "{" (JSON.skip_ws s)) as [r0|] eqn:Ho.
    { apply starts_length in Ho. assert (Hws0 := skip_ws_length r0).
      destruct (JSON.starts "}" (JSON.skip_ws r0)) as [r1|] eqn:Hc.
      - apply starts_length in Hc. intros [= _ <-]. lia.
      - intros H. apply IHm in H. lia. }
    destruct (JSON.starts "[" (JSON.skip_ws s)) as [r0|] eqn:Ha.
    { apply starts_length in Ha. assert (Hws0 := skip_ws_length r0).
      destruct (JSON.starts "]" (JSON.skip_ws r0)) as [r1|] eqn:Hc.
      - apply starts_length in Hc. intros [= _ <-]. lia.
      - intros H. apply IHe in H. lia. }
    intros H. apply scalar_length in H. lia.
  - intros s acc v r. simpl. assert (Hws := skip_ws_length s).
    destruct (JSON.string_literal (JSON.skip_ws s)) as [[k r1]|] eqn:Hk;
      [|discriminate].
    apply string_literal_length in Hk. assert (Hws1 := skip_ws_length r1).
    destruct (JSON.starts ":" (JSON.skip_ws r1)) as [r2|] eqn:Hc; [|discriminate].
    apply starts_length in Hc.
    destruct (JSON.value n r2) as [[v' r3]|] eqn:Hv; [|discriminate].
    apply IHv in Hv. assert (Hws3 := skip_ws_length r3).
    destruct (JSON.starts "," (JSON.skip_ws r3)) as [r4|] eqn:Hs.
    { apply starts_length in Hs. intros H. apply IHm in H. lia. }
    destruct (JSON.starts "}" (JSON.skip_ws r3)) as [r4|] eqn:He; [|discriminate].
    apply starts_length in He. intros [= _ <-]. lia.
  - intros s acc v r. simpl.
    destruct (JSON.value n s) as [[v' r1]|] eqn:Hv; [|discriminate].
    apply IHv in Hv. assert (Hws1 := skip_ws_length r1).
    destruct (JSON.starts "," (JSON.skip_ws r1)) as [r2|] eqn:Hs.
    { apply starts_length in Hs. intros H. apply IHe in H. lia. }
    destruct (JSON.starts "]" (JSON.skip_ws r1)) as [r2|] eqn:He; [|discriminate].
    apply starts_length in He. intros [= _ <-]. lia.
Qed.

(** Beyond twice the length of the input, more fuel changes nothing. *)
Lemma parser_fuel n : forall m,
  (forall s, (2 * List.length s + 1 <= n)%nat ->
             (2 * List.length s + 1 <= m)%nat ->
             JSON.value n s = JSON.value m s)
  /\ (forall s acc, (2 * List.length s + 1 <= n)%nat ->
                    (2 * List.length s + 1 <= m)%nat ->
                    JSON.members n s acc = JSON.members m s acc)
  /\ (forall s acc, (2 * List.length s + 2 <= n)%nat ->
                    (2 * List.length s + 2 <= m)%nat ->
                    JSON.elements n s acc = JSON.elements m s acc).
Proof.
  induction n as [|n IH]; intros m; [repeat split; intros; lia|].
  destruct m as [|m]; [repeat split; intros; lia|].
  destruct (IH m) as (IHv & IHm & IHe).
  repeat split.
  - intros s Hn Hm. simpl. assert (Hws := skip_ws_length s).
    destruct (JSON.starts "{" (JSON.skip_ws s)) as [r0|] eqn:Ho.
    { apply starts_length in Ho.
      destruct (JSON.starts "}" (JSON.skip_ws r0)); [reflexivity|].
      apply IHm; lia. }
    destruct (JSON.starts "[" (JSON.skip_ws s)) as [r0|] eqn:Ha; [|reflexivity].
    apply starts_length in Ha.
    destruct (JSON.starts "]" (JSON.skip_ws r0)); [reflexivity|].
    apply IHe; lia.
  - intros s acc Hn Hm. simpl. assert (Hws := skip_ws_length s).
    destruct (JSON.string_literal (JSON.skip_ws s)) as [[k r1]|] eqn:Hk;
      [|reflexivity].
    apply string_literal_length in Hk. assert (Hws1 := skip_ws_length r1).
    destruct (JSON.starts ":" (JSON.skip_ws r1)) as [r2|] eqn:Hc; [|reflexivity].
    apply starts_length in Hc.
    rewrite (IHv r2) by lia.
    destruct (JSON.value m r2) as [[v' r3]|] eqn:Hv; [|reflexivity].
    apply (proj1 (parser_length m)) in Hv. assert (Hws3 := skip_ws_length r3).
    destruct (JSON.starts "," (JSON.skip_ws r3)) as [r4|] eqn:Hs; [|reflexivity].
    apply starts_length in Hs. apply IHm; lia.
  - intros s acc Hn Hm. simpl.
    rewrite (IHv s) by lia.
    destruct (JSON.value m s) as [[v' r1]|] eqn:Hv; [|reflexivity].
    apply (proj1 (parser_length m)) in Hv. assert (Hws1 := skip_ws_length r1).
    destruct (JSON.starts "," (JSON.skip_ws r1)) as [r2|] eqn:Hs; [|reflexivity].
    apply starts_length in Hs. apply IHe; lia.
Qed.

(** The fuel [JSON.parse] gives its parser is enough: no larger amount
    parses a text that it rejects, or parses it differently. *)
Theorem parse_fuel_suffices text n :
  (2 * List.length (list_ascii_of_string text) + 2 <= n)%nat ->
  JSON.value n (list_ascii_of_string text)
  = JSON.value (2 * List.length (list_ascii_of_string text) + 2)
      (list_ascii_of_string text).
Proof.
  intros Hn. apply (proj1 (parser_fuel n _)); lia.
Qed.

(** [trim] has fuel to spare as well: what [strip] returns starts with no
    white space. *)
Lemma strip_one_length ws : forall s r,
  Forall (fun w => w <> []) ws -> strip_one ws s = Some r ->
  (List.length r < List.length s)%nat.
Proof.
  induction ws as [|w ws IH]; intros s r Hne; simpl; [discriminate|].
  inversion Hne as [|? ? Hw Hrest]; subst.
  destruct (JSON.literal w s) as [r'|] eqn:Hl.
  - intros [= <-]. apply literal_length in Hl.
    destruct w; [contradiction|]. simpl in Hl. lia.
  - now apply IH.
Qed.

Lemma strip_clean ws n : forall s,
  Forall (fun w => w <> []) ws -> (List.length s <= n)%nat ->
  strip_one ws (strip ws n s) = None.
Proof.
  induction n as [|n IH]; intros s Hne Hn; simpl.
  - destruct s; [|simpl in Hn; lia].
    clear Hn. induction Hne as [|w ws Hw _ IHws]; simpl; [reflexivity|].
    destruct w; [contradiction|exact IHws].
  - destruct (strip_one ws s) as [r|] eqn:Hs; [|exact Hs].
    apply IH; [assumption|].
    apply (strip_one_length _ _ _ Hne) in Hs. lia.
Qed.

Lemma trim_start_clean (s : list ascii) :
  strip_one whitespace (strip whitespace (List.length s) s) = None.
Proof.
  apply strip_clean; [|lia].
  unfold whitespace. simpl. repeat constructor; discriminate.
Qed.

(** ** Lemmas on the parser and the regular expression *)

Lemma members_object n : forall s acc v r,
  JSON.members n s acc = Some (v, r) -> exists fields, v = JObj fields.
Proof.
  induction n as [|n IH]; intros s acc v r; simpl; [discriminate|].
  destruct (JSON.string_literal (JSON.skip_ws s)) as [[k r1]|]; [|discriminate].
  destruct (JSON.starts ":" (JSON.skip_ws r1)) as [r2|]; [|discriminate].
  destruct (JSON.value n r2) as [[v' r3]|]; [|discriminate].
  destruct (JSON.starts "," (JSON.skip_ws r3)) as [r4|]; [apply IH|].
  destruct (JSON.starts "}" (JSON.skip_ws r3)) as [r4|]; [|discriminate].
  intros [= <- _]; eauto.
Qed.

Lemma value_open_brace n r v rest :
  JSON.value n ("{"%char :: r) = Some (v, rest) -> exists fields, v = JObj fields.
Proof.
  destruct n as [|n]; [discriminate|].
  simpl.
  destruct (JSON.starts "}" (JSON.skip_ws r)) as [r'|].
  - intros [= <- _]; eauto.
  - apply members_object.
Qed.

Lemma from_first_head c s x r :
  Regex.from_first c s = Some (x :: r) -> x = c.
Proof.
  induction s as [|y s IH]; simpl; [discriminate|].
  destruct (Ascii.eqb y c) eqn:Hy; [|exact IH].
  intros H; inversion H; subst. now apply Ascii.eqb_eq.
Qed.

Lemma exec_open_brace text jsonMatch :
  Regex.exec text = Some jsonMatch ->
  exists r, list_ascii_of_string jsonMatch = "{"%char :: r.
Proof.
  unfold Regex.exec.
  destruct (Regex.from_first "{" (list_ascii_of_string text)) as [[|x r]|] eqn:Hf;
    try discriminate.
  apply from_first_head in Hf; subst x.
  destruct (Regex.upto_last "}" r) as [body|]; [|discriminate].
  intros [= <-]. simpl.
  rewrite list_ascii_of_string_of_list_ascii. eauto.
Qed.

(** What [JSON.parse] makes of a match of the regular expression is an
    object. *)
Lemma parse_match_object text jsonMatch v :
  Regex.exec text = Some jsonMatch -> JSON.parse jsonMatch = Some v ->
  exists fields, v = JObj fields.
Proof.
  intros Hexec. destruct (exec_open_brace _ _ Hexec) as [r Hr].
  unfold JSON.parse. rewrite Hr.
  destruct (JSON.value _ _) as [[v' rest]|] eqn:Hv; [|discriminate].
  apply value_open_brace in Hv. destruct Hv as [fields ->].
  destruct (JSON.skip_ws rest); [|discriminate].
  intros [= <-]; eauto.
Qed.

(** ** The evaluation orchestrator *)

Ltac run :=
  unfold bind, ret, throw, try_catch, spawn, await, parse_match, member;
  simpl.

(** A branch whose prompt can be built awaits its capability once and
    returns the contribution of its answer. *)
Lemma evaluate_run E caps who fields cv log :
  lookup "cv_text" fields = Some (JStr cv) ->
  evaluate E caps who (JObj fields) log
  = (Return (contribution E (invoke caps who (JObj fields))),
     (log ++ [Evaluator who (JObj fields)])%list).
Proof.
  intros Hcv. unfold evaluate, contribution. run. rewrite Hcv.
  destruct (invoke caps who (JObj fields)) as [text|message]; [|reflexivity].
  destruct (Regex.exec text) as [jsonMatch|] eqn:Hexec; [|reflexivity].
  destruct (JSON.parse jsonMatch) as [evaluation|] eqn:Hparse; [|reflexivity].
  destruct (parse_match_object _ _ _ Hexec Hparse) as [fs ->].
  reflexivity.
Qed.

(** A branch never rejects and never stays pending, and what it returns
    does not depend on the calls logged before it. *)
Lemma evaluate_returns E caps who candidate :
  exists v, forall log, fst (evaluate E caps who candidate log) = Return v.
Proof.
  destruct candidate as [| b | q | s | items | fields];
    try (eexists; intros log; unfold evaluate; run; reflexivity).
  destruct (lookup "cv_text" fields) as [[| b | q | cv | items | fs]|] eqn:Hcv;
    try (eexists; intros log; unfold evaluate; run; rewrite Hcv; reflexivity).
  eexists; intros log. rewrite (evaluate_run _ _ _ _ _ _ Hcv). reflexivity.
Qed.

(** The six orders in which three promises can settle. *)
Lemma schedule_cases (schedule : list nat) :
  Permutation schedule [0; 1; 2]%nat ->
  schedule = [0; 1; 2]%nat \/ schedule = [0; 2; 1]%nat
  \/ schedule = [1; 0; 2]%nat \/ schedule = [1; 2; 0]%nat
  \/ schedule = [2; 0; 1]%nat \/ schedule = [2; 1; 0]%nat.
Proof.
  intros HP.
  assert (Hlen := Permutation_length HP).
  assert (Hnd : NoDup schedule).
  { apply (Permutation_NoDup (Permutation_sym HP)).
    repeat constructor; simpl; intuition discriminate. }
  assert (Hin : forall x, In x schedule -> (x < 3)%nat).
  { intros x Hx. apply (Permutation_in _ HP) in Hx. simpl in Hx. lia. }
  destruct schedule as [|a [|b [|c [|d rest]]]]; try discriminate.
  assert (Ha := Hin a (or_introl eq_refl)).
  assert (Hb := Hin b (or_intror (or_introl eq_refl))).
  assert (Hc := Hin c (or_intror (or_intror (or_introl eq_refl)))).
  inversion Hnd as [|? ? Hna Hnd']; subst.
  inversion Hnd' as [|? ? Hnb _]; subst.
  simpl in Hna, Hnb.
  assert (a <> b /\ a <> c /\ b <> c) as (Hab & Hac & Hbc) by intuition.
  destruct a as [|[|[|a]]]; destruct b as [|[|[|b]]]; destruct c as [|[|[|c]]];
    try lia; auto 10.
Qed.

(** With three branches that have all returned, the join waits until the
    third has settled, and is then fulfilled with the three values in the
    order of the branches. *)
Lemma promise_all_three {A} (h m s : A) (schedule : list nat) :
  Permutation schedule [0; 1; 2]%nat ->
  promise_all [Return h; Return m; Return s] schedule = Fulfilled [h; m; s]
  /\ forall k, (k < 3)%nat ->
       exists slots remaining,
         promise_all [Return h; Return m; Return s] (firstn k schedule)
         = Waiting slots remaining.
Proof.
  intros HP.
  destruct (schedule_cases _ HP) as [-> | [-> | [-> | [-> | [-> | ->]]]]];
    (split; [reflexivity|]);
    intros [|[|[|k]]] Hk; try lia; cbn; eauto.
Qed.

(** [evaluateCandidate] on a candidate object, in terms of what its three
    branches return. *)
Lemma evaluateCandidate_run E caps fields schedule log h m s :
  (forall l, fst (evaluate E caps hr (JObj fields) l) = Return h) ->
  (forall l, fst (evaluate E caps manager (JObj fields) l) = Return m) ->
  (forall l, fst (evaluate E caps sales (JObj fields) l) = Return s) ->
  fst (evaluateCandidate E caps (JObj fields) schedule log)
  = match promise_all [Return h; Return m; Return s] schedule with
    | Fulfilled [hrEval; managerEval; salesEval] =>
        Return (evaluationSet hrEval managerEval salesEval)
    | Fulfilled _ => Return (JObj [])
    | Rejected e => Throw e
    | Waiting _ _ => Pending
    end.
Proof.
  intros Hh Hm Hs.
  unfold evaluateCandidate, await_all. run.
  specialize (Hh log).
  destruct (evaluate E caps hr (JObj fields) log) as [r1 l1]. simpl in Hh. subst r1.
  specialize (Hm l1).
  destruct (evaluate E caps manager (JObj fields) l1) as [r2 l2]. simpl in Hm. subst r2.
  specialize (Hs l2).
  destruct (evaluate E caps sales (JObj fields) l2) as [r3 l3]. simpl in Hs. subst r3.
  destruct (promise_all [Return h; Return m; Return s] schedule)
    as [slots remaining | [|a [|b [|c [|d rest]]]] | e]; reflexivity.
Qed.

(** A failing branch returns the placeholder that records the cause. *)
Lemma evaluate_failure_placeholder_run E caps who fields cv cause log :
  lookup "cv_text" fields = Some (JStr cv) ->
  fails E caps who (JObj fields) cause ->
  evaluate E caps who (JObj fields) log
  = (Return (placeholder cause), (log ++ [Evaluator who (JObj fields)])%list).
Proof.
  intros Hcv Hfail.
  rewrite (evaluate_run _ _ _ _ _ _ Hcv). f_equal. f_equal.
  unfold contribution.
  destruct Hfail as [message Hi | text Hi Hx | text jsonMatch Hi Hx Hp];
    rewrite Hi; [reflexivity | now rewrite Hx | now rewrite Hx, Hp].
Qed.

(** C3. An evaluator invocation that fails -- its capability rejects, its
    text holds no object, or the object does not parse -- makes
    [Agent.evaluate] return, not throw: the value is the placeholder with
    score 5, recommendation MAYBE and an analysis whose [error] is the
    message of the failure. *)
Theorem evaluate_failure_gives_placeholder E caps who fields cv cause log :
  lookup "cv_text" fields = Some (JStr cv) ->
  fails E caps who (JObj fields) cause ->
  exists entry,
    evaluate E caps who (JObj fields) log
    = (Return (JObj entry), (log ++ [Evaluator who (JObj fields)])%list)
    /\ lookup "score" entry = Some (JNum 5)
    /\ lookup "recommendation" entry = Some (JStr "MAYBE")
    /\ optional (lookup "analysis" entry) "error" = Some (JStr cause).
Proof.
  intros Hcv Hfail.
  rewrite (evaluate_failure_placeholder_run _ _ _ _ _ _ _ Hcv Hfail).
  eexists. split; [reflexivity|]. repeat split; reflexivity.
Qed.

Lemma evaluate_failure_gives_placeholder_witness :
  exists entry,
    evaluate v8 managerTimesOut manager alice []
    = (Return (JObj entry), [Evaluator manager alice])
    /\ lookup "score" entry = Some (JNum 5)
    /\ lookup "recommendation" entry = Some (JStr "MAYBE")
    /\ optional (lookup "analysis" entry) "error"
       = Some (JStr "Request timed out").
Proof.
  exact (evaluate_failure_gives_placeholder v8 managerTimesOut manager profile
           "Ten years of backend work." "Request timed out" [] eq_refl
           (fails_capability v8 managerTimesOut manager alice
              "Request timed out" eq_refl)).
Defined.

(** *** The span the regular expression takes *)







(** The first balanced object of this text parses; the span up to the last
    closing brace does not. *)
Example exec_is_not_balanced :
  Regex.exec (json_text "{'score': 8} (see {notes})")
  = Some (json_text "{'score': 8} (see {notes}")
  /\ JSON.parse (json_text "{'score': 8} (see {notes}") = None
  /\ JSON.parse (json_text "{'score': 8}") = Some (JObj [("score", JNum 8)]).
Proof. vm_compute. repeat split. Qed.




(** C2. Whatever the three evaluator capabilities do, each branch of the
    fan-out returns a value (its real result or its placeholder) and
    never rejects; the join of [evaluateCandidate] stays pending while
    fewer than three branches have settled, and once all three have, it
    returns the three values, each the contribution of its own
    capability's answer alone. *)
Theorem fan_in_waits_for_all_branches E caps fields schedule log :
  Permutation schedule [0; 1; 2]%nat ->
  exists h m s,
    (forall l, fst (evaluate E caps hr (JObj fields) l) = Return h)
    /\ (forall l, fst (evaluate E caps manager (JObj fields) l) = Return m)
    /\ (forall l, fst (evaluate E caps sales (JObj fields) l) = Return s)
    /\ (forall k, (k < 3)%nat ->
          fst (evaluateCandidate E caps (JObj fields) (firstn k schedule) log)
          = Pending)
    /\ fst (evaluateCandidate E caps (JObj fields) schedule log)
       = Return (evaluationSet h m s)
    /\ (forall cv, lookup "cv_text" fields = Some (JStr cv) ->
          h = contribution E (invoke caps hr (JObj fields))
          /\ m = contribution E (invoke caps manager (JObj fields))
          /\ s = contribution E (invoke caps sales (JObj fields))).
Proof.
  intros HP.
  destruct (evaluate_returns E caps hr (JObj fields)) as [h Hh].
  destruct (evaluate_returns E caps manager (JObj fields)) as [m Hm].
  destruct (evaluate_returns E caps sales (JObj fields)) as [s Hs].
  destruct (promise_all_three h m s schedule HP) as [Hall Hwait].
  exists h, m, s. repeat (split; [assumption|]). split; [|split].
  - intros k Hk.
    rewrite (evaluateCandidate_run _ _ _ _ _ h m s Hh Hm Hs).
    destruct (Hwait k Hk) as (slots & remaining & ->). reflexivity.
  - rewrite (evaluateCandidate_run _ _ _ _ _ h m s Hh Hm Hs), Hall.
    reflexivity.
  - intros cv Hcv.
    specialize (Hh []). specialize (Hm []). specialize (Hs []).
    rewrite (evaluate_run _ _ hr _ _ _ Hcv) in Hh.
    rewrite (evaluate_run _ _ manager _ _ _ Hcv) in Hm.
    rewrite (evaluate_run _ _ sales _ _ _ Hcv) in Hs.
    simpl in Hh, Hm, Hs.
    now inversion Hh; inversion Hm; inversion Hs.
Qed.

Lemma fan_in_waits_for_all_branches_witness :
  exists h m s,
    (forall l, fst (evaluate v8 managerTimesOut hr alice l) = Return h)
    /\ (forall l, fst (evaluate v8 managerTimesOut manager alice l) = Return m)
    /\ (forall l, fst (evaluate v8 managerTimesOut sales alice l) = Return s)
    /\ (forall k, (k < 3)%nat ->
          fst (evaluateCandidate v8 managerTimesOut alice
                 (firstn k [2; 0; 1]%nat) [])
          = Pending)
    /\ fst (evaluateCandidate v8 managerTimesOut alice [2; 0; 1]%nat [])
       = Return (evaluationSet h m s)
    /\ (forall cv, lookup "cv_text" profile = Some (JStr cv) ->
          h = contribution v8 (invoke managerTimesOut hr alice)
          /\ m = contribution v8 (invoke managerTimesOut manager alice)
          /\ s = contribution v8 (invoke managerTimesOut sales alice)).
Proof.
  apply (fan_in_waits_for_all_branches v8 managerTimesOut profile
           [2; 0; 1]%nat []).
  apply perm_trans with [0; 2; 1]%nat;
    [apply perm_swap | apply perm_skip, perm_swap].
Defined.

(** C6. For every candidate object and every behaviour of the evaluator
    capabilities, [evaluateCandidate] returns an object whose keys are
    exactly hr, manager and sales, the same object for every order in
    which the branches settle; the entry of an evaluator that failed is
    its placeholder. *)
Theorem evaluation_set_is_complete E caps fields log :
  exists entries,
    keys entries = ["hr"; "manager"; "sales"]
    /\ (forall schedule, Permutation schedule [0; 1; 2]%nat ->
          fst (evaluateCandidate E caps (JObj fields) schedule log)
          = Return (JObj entries))
    /\ (forall who cv cause,
          lookup "cv_text" fields = Some (JStr cv) ->
          fails E caps who (JObj fields) cause ->
          lookup (key who) entries = Some (placeholder cause)
          /\ optional (lookup (key who) entries) "score" = Some (JNum 5)
          /\ optional (lookup (key who) entries) "recommendation"
             = Some (JStr "MAYBE")).
Proof.
  destruct (evaluate_returns E caps hr (JObj fields)) as [h Hh].
  destruct (evaluate_returns E caps manager (JObj fields)) as [m Hm].
  destruct (evaluate_returns E caps sales (JObj fields)) as [s Hs].
  exists [("hr", h); ("manager", m); ("sales", s)].
  split; [reflexivity|]. split.
  - intros schedule HP.
    rewrite (evaluateCandidate_run _ _ _ _ _ h m s Hh Hm Hs).
    destruct (promise_all_three h m s schedule HP) as [-> _]. reflexivity.
  - intros who cv cause Hcv Hfail.
    assert (Hwho : forall l, fst (evaluate E caps who (JObj fields) l)
                             = Return (placeholder cause)).
    { intros l.
      now rewrite (evaluate_failure_placeholder_run E caps who fields cv cause
                     l Hcv Hfail). }
    assert (lookup (key who) [("hr", h); ("manager", m); ("sales", s)]
            = Some (placeholder cause)) as ->.
    { specialize (Hwho []).
      destruct who; simpl;
        [rewrite Hh in Hwho | rewrite Hm in Hwho | rewrite Hs in Hwho];
        now inversion Hwho. }
    repeat split.
Qed.

Lemma evaluation_set_is_complete_witness :
  exists entries,
    keys entries = ["hr"; "manager"; "sales"]
    /\ fst (evaluateCandidate v8 managerTimesOut alice [1; 2; 0]%nat [])
       = Return (JObj entries)
    /\ lookup "manager" entries = Some (placeholder "Request timed out").
Proof.
  destruct (evaluation_set_is_complete v8 managerTimesOut profile [])
    as (entries & Hkeys & Hall & Hfail).
  exists entries. split; [exact Hkeys|]. split.
  - apply Hall.
    apply perm_trans with [1; 0; 2]%nat;
      [apply perm_skip, perm_swap | apply perm_swap].
  - apply (Hfail manager "Ten years of backend work." "Request timed out"
             eq_refl).
    apply fails_capability. reflexivity.
Defined.

(** ** The discrepancy detector and the mediator *)

Lemma silent_ret {A} (a : A) : silent (ret a).
Proof. exists (Return a). split; [discriminate | reflexivity]. Qed.

Lemma silent_throw {A} message : silent (@throw A message).
Proof. exists (Throw message). split; [discriminate | reflexivity]. Qed.

Lemma silent_bind {A B} (m : M A) (k : A -> M B) :
  silent m -> (forall a, silent (k a)) -> silent (bind m k).
Proof.
  intros (r & Hr & Hm) Hk. destruct r as [a | e |]; [| |contradiction].
  - destruct (Hk a) as (r' & Hr' & Hka). exists r'. split; [assumption|].
    intros log. unfold bind. now rewrite Hm, Hka.
  - exists (Throw e). split; [discriminate|].
    intros log. unfold bind. now rewrite Hm.
Qed.

Lemma silent_member E base k : silent (member E base k).
Proof.
  destruct base as [[]|]; first [apply silent_ret | apply silent_throw].
Qed.

Lemma silent_scores E evaluations : silent (scores E evaluations).
Proof.
  unfold scores.
  repeat (apply silent_bind; [apply silent_member | intros ?]).
  apply silent_ret.
Qed.

Lemma scores_numeric E evaluations h m s log :
  score_of evaluations hr = Some (JNum h) ->
  score_of evaluations manager = Some (JNum m) ->
  score_of evaluations sales = Some (JNum s) ->
  scores E evaluations log
  = (Return (Some (JNum h), Some (JNum m), Some (JNum s)), log).
Proof.
  unfold score_of, scores.
  destruct evaluations as [| | | | |fields]; try discriminate. simpl. run.
  destruct (lookup "hr" fields) as [[| | | | |hf]|]; try discriminate.
  destruct (lookup "manager" fields) as [[| | | | |mf]|]; try discriminate.
  destruct (lookup "sales" fields) as [[| | | | |sf]|]; try discriminate.
  simpl. now intros -> -> ->.
Qed.




Lemma negotiateScores_numeric E caps evaluations h m s log :
  score_of evaluations hr = Some (JNum h) ->
  score_of evaluations manager = Some (JNum m) ->
  score_of evaluations sales = Some (JNum s) ->
  negotiateScores E caps evaluations log
  = if Qgt_bool (maxDiff h m s) 2
    then (Return (object_or_null (mediate caps evaluations)),
          (log ++ [Mediator evaluations])%list)
    else (Return JNull, log).
Proof.
  intros Hh Hm Hs. unfold negotiateScores, try_catch, bind.
  rewrite (scores_numeric E _ _ _ _ log Hh Hm Hs).
  change (discrepancy E (Some (JNum h)) (Some (JNum m)) (Some (JNum s)))
    with (Qgt_bool (maxDiff h m s) 2).
  destruct (Qgt_bool (maxDiff h m s) 2); [|reflexivity].
  unfold await, object_or_null.
  destruct (mediate caps evaluations) as [text|message]; [|reflexivity].
  destruct (Regex.exec text) as [jsonMatch|] eqn:Hexec; [|reflexivity].
  run.
  destruct (JSON.parse jsonMatch) as [v|] eqn:Hparse; [|reflexivity].
  destruct (parse_match_object _ _ _ Hexec Hparse) as [fields ->].
  reflexivity.
Qed.

(** The two variants agree on every input: without a match one throws into
    its own [catch], the other falls through, and both return [null]. *)
Lemma negotiateScores_variants_agree E caps evaluations log :
  negotiateScores E caps evaluations log
  = negotiateScores_gemini E caps evaluations log.
Proof.
  unfold negotiateScores, negotiateScores_gemini, try_catch, bind.
  destruct (scores E evaluations log) as [[[[h m] s] | e |] l]; try reflexivity.
  destruct (discrepancy E h m s); [|reflexivity].
  unfold await.
  destruct (mediate caps evaluations) as [text|message]; [|reflexivity].
  destruct (Regex.exec text) as [jsonMatch|]; reflexivity.
Qed.

(** [negotiateScores] always returns, and logs at most the one call of the
    mediator. *)
Lemma negotiateScores_returns E caps evaluations log :
  exists nr,
    negotiateScores E caps evaluations log = (Return nr, log)
    \/ negotiateScores E caps evaluations log
       = (Return nr, (log ++ [Mediator evaluations])%list).
Proof.
  unfold negotiateScores, try_catch, bind.
  destruct (silent_scores E evaluations) as (r & Hr & ->).
  destruct r as [[[h m] s] | e |]; [| eexists; left; reflexivity | contradiction].
  destruct (discrepancy E h m s); [| eexists; left; reflexivity].
  unfold await.
  destruct (mediate caps evaluations) as [text|message];
    [| eexists; right; reflexivity].
  destruct (Regex.exec text) as [jsonMatch|]; [| eexists; right; reflexivity].
  run.
  destruct (JSON.parse jsonMatch) as [[| | | | |fields]|];
    eexists; right; reflexivity.
Qed.

(** ** The decision synthesizer *)

Lemma object_or_null_shape r :
  object_or_null r = JNull \/ exists fields, object_or_null r = JObj fields.
Proof.
  unfold object_or_null.
  destruct r as [text|message]; [|now left].
  destruct (Regex.exec text) as [jsonMatch|] eqn:Hexec; [|now left].
  destruct (JSON.parse jsonMatch) as [v|] eqn:Hparse; [|now left].
  destruct (parse_match_object _ _ _ Hexec Hparse) as [fields ->]. eauto.
Qed.

Lemma insights_run E evaluations log :
  if prompt_builds evaluations
  then insights E evaluations log = (Return tt, log)
  else exists message, insights E evaluations log = (Throw message, log).
Proof.
  unfold prompt_builds, insights, insight. run.
  destruct evaluations as [| | | | |fields]; simpl; eauto.
  destruct (lookup "hr" fields) as [[| | | | |hf]|]; simpl; eauto.
  destruct (lookup "analysis" hf); simpl; eauto.
  destruct (lookup "manager" fields) as [[| | | | |mf]|]; simpl; eauto.
  destruct (lookup "analysis" mf); simpl; eauto.
  destruct (lookup "sales" fields) as [[| | | | |sf]|]; simpl; eauto.
  destruct (lookup "analysis" sf); simpl; eauto.
Qed.

Lemma generateFinalDecision_run E caps evaluations nr log :
  generateFinalDecision E caps evaluations nr log
  = if prompt_builds evaluations
    then (Return (object_or_null (judge caps evaluations nr)),
          (log ++ [Judge evaluations nr])%list)
    else (Return JNull, log).
Proof.
  unfold generateFinalDecision, try_catch, bind.
  generalize (insights_run E evaluations log).
  destruct (prompt_builds evaluations).
  - intros ->. unfold await, object_or_null.
    destruct (judge caps evaluations nr) as [text|message]; [|reflexivity].
    destruct (Regex.exec text) as [jsonMatch|]; [|reflexivity].
    unfold parse_match. now destruct (JSON.parse jsonMatch).
  - now intros [message ->].
Qed.

Lemma generateFollowUpQuestion_run E caps evaluations log :
  prompt_builds evaluations = true ->
  generateFollowUpQuestion E caps evaluations log
  = (Return (match clarify caps evaluations with
             | Text text => JStr (trim text)
             | Failure _ => JNull
             end),
     (log ++ [Clarifier evaluations])%list).
Proof.
  intros Hb. unfold generateFollowUpQuestion, try_catch, bind.
  generalize (insights_run E evaluations log). rewrite Hb. intros ->.
  unfold await. now destruct (clarify caps evaluations).
Qed.

(** [decideHiring] after [negotiateScores] has returned [nr]. *)
Lemma decideHiring_run E caps evaluations log nr log1 :
  negotiateScores E caps evaluations log = (Return nr, log1) ->
  decideHiring E caps evaluations log
  = if prompt_builds evaluations then
      let decision := object_or_null (judge caps evaluations nr) in
      let log2 := (log1 ++ [Judge evaluations nr])%list in
      match decision with
      | JNull => (Return (fallback (noDecision E)), log2)
      | _ =>
          if maybe_without_question decision then
            match clarify caps evaluations with
            | Text text =>
                (Return (if String.eqb (trim text) "" then decision
                         else attach E decision (JStr (trim text))),
                 (log2 ++ [Clarifier evaluations])%list)
            | Failure _ =>
                (Return decision, (log2 ++ [Clarifier evaluations])%list)
            end
          else (Return decision, log2)
      end
    else (Return (fallback (noDecision E)), log1).
Proof.
  intros Hneg. unfold decideHiring, try_catch. unfold bind at 1. rewrite Hneg.
  unfold bind at 1. rewrite generateFinalDecision_run.
  destruct (prompt_builds evaluations) eqn:Hb; [|reflexivity].
  cbv zeta.
  destruct (object_or_null_shape (judge caps evaluations nr))
    as [-> | [fields ->]]; [reflexivity|].
  unfold maybe_without_question, wants_follow_up. unfold bind at 1. run.
  destruct (lookup "final_decision" fields) as [[| | | outcome | |]|];
    try reflexivity.
  destruct (String.eqb outcome "MAYBE"); [|reflexivity]. simpl.
  destruct (truthy (lookup "follow_up_question" fields)); [reflexivity|]. simpl.
  rewrite (generateFollowUpQuestion_run _ _ _ _ Hb).
  destruct (clarify caps evaluations) as [text|message]; [|reflexivity].
  simpl. now destruct (String.eqb (trim text) "").
Qed.




(** [decideHiring] always returns a value. *)
Lemma decideHiring_returns E caps evaluations log :
  exists decision, fst (decideHiring E caps evaluations log) = Return decision.
Proof.
  destruct (negotiateScores_returns E caps evaluations log) as [nr [H | H]];
    rewrite (decideHiring_run _ _ _ _ _ _ H);
    destruct (prompt_builds evaluations); cbv zeta;
    try (eexists; reflexivity);
    (destruct (object_or_null (judge caps evaluations nr));
     try (eexists; reflexivity);
     destruct (maybe_without_question _); try (eexists; reflexivity);
     destruct (clarify caps evaluations); eexists; reflexivity).
Qed.






Lemma unusable_null r : unusable r = true -> object_or_null r = JNull.
Proof.
  unfold unusable, object_or_null.
  destruct r as [text|message]; [|reflexivity].
  destruct (Regex.exec text) as [jsonMatch|]; [|reflexivity].
  now destruct (JSON.parse jsonMatch).
Qed.




(** C4. When the judgment capability fails entirely, [decideHiring]
    returns the fixed fallback: outcome MAYBE, confidence 0.5, a
    rationale that recommends manual review, empty details.  And for every
    behaviour of the capabilities [decideHiring] returns a value: it
    throws nothing. *)
Theorem judgment_failure_gives_fallback E caps evaluations log nr :
  fst (negotiateScores E caps evaluations log) = Return nr ->
  unusable (judge caps evaluations nr) = true ->
  (exists fields,
     fst (decideHiring E caps evaluations log) = Return (JObj fields)
     /\ lookup "final_decision" fields = Some (JStr "MAYBE")
     /\ lookup "confidence_score" fields = Some (JNum (1 # 2))
     /\ lookup "reasoning" fields
        = Some (JStr "Decision could not be fully evaluated. Recommend manual review.")
     /\ lookup "details" fields = Some (JObj []))
  /\ forall caps' evaluations' log',
       exists decision,
         fst (decideHiring E caps' evaluations' log') = Return decision.
Proof.
  intros Hneg Hbad. split; [|intros; apply decideHiring_returns].
  destruct (negotiateScores E caps evaluations log) as [r log1] eqn:Hrun.
  simpl in Hneg. subst r.
  rewrite (decideHiring_run _ _ _ _ _ _ Hrun), (unusable_null _ Hbad).
  destruct (prompt_builds evaluations); eexists; (split; [reflexivity|]);
    repeat split.
Qed.

Lemma judgment_failure_gives_fallback_witness :
  exists fields,
    fst (decideHiring v8 judgeDown scenarioA []) = Return (JObj fields)
    /\ lookup "final_decision" fields = Some (JStr "MAYBE")
    /\ lookup "confidence_score" fields = Some (JNum (1 # 2))
    /\ lookup "reasoning" fields
       = Some (JStr "Decision could not be fully evaluated. Recommend manual review.")
    /\ lookup "details" fields = Some (JObj []).
Proof.
  apply (proj1 (judgment_failure_gives_fallback v8 judgeDown scenarioA [] JNull
                  eq_refl eq_refl)).
Defined.








(** * More of the code: proofs *)

(** ** [negotiateScores] on incomplete evaluations *)

Lemma scores_readable E evaluations log :
  readable (entry evaluations hr) = true ->
  readable (entry evaluations manager) = true ->
  readable (entry evaluations sales) = true ->
  scores E evaluations log
  = (Return (score_of evaluations hr, score_of evaluations manager,
             score_of evaluations sales), log).
Proof.
  unfold entry, score_of, scores.
  destruct evaluations as [| | | | |fields]; try discriminate. simpl. run.
  destruct (lookup "hr" fields) as [[]|]; try discriminate;
    destruct (lookup "manager" fields) as [[]|]; try discriminate;
    destruct (lookup "sales" fields) as [[]|]; try discriminate;
    reflexivity.
Qed.

Lemma scores_unreadable E evaluations log who :
  readable (entry evaluations who) = false ->
  exists message, scores E evaluations log = (Throw message, log).
Proof.
  unfold entry, scores.
  destruct evaluations as [| | | | |fields];
    try (intros _; eexists; reflexivity).
  destruct who; simpl; run;
    destruct (lookup "hr" fields) as [[]|];
    destruct (lookup "manager" fields) as [[]|];
    destruct (lookup "sales" fields) as [[]|];
    simpl; intros H; try discriminate H; eexists; reflexivity.
Qed.

Lemma discrepancy_missing E h m s :
  h = None \/ m = None \/ s = None ->
  toNumber h <> None -> toNumber m <> None -> toNumber s <> None ->
  discrepancy E h m s = false.
Proof.
  intros Hmiss Hh Hm Hs. unfold discrepancy.
  destruct (toNumber h) as [a|] eqn:Ha; [|contradiction].
  destruct (toNumber m) as [b|] eqn:Hb; [|contradiction].
  destruct (toNumber s) as [c|] eqn:Hc; [|contradiction].
  destruct Hmiss as [-> | [-> | ->]].
  - simpl in Ha. injection Ha as <-. reflexivity.
  - simpl in Hb. injection Hb as <-. now destruct a.
  - simpl in Hc. injection Hc as <-. destruct a; [now destruct b | reflexivity].
Qed.

(** X1. An evaluator whose entry or whose score is missing switches the
    negotiation off: when an entry of the evaluations cannot be read, or
    a score is [undefined] while no score is a string, an array or an
    object, both variants of [negotiateScores] return [null] and never
    call the mediator, however far apart the other scores are. *)
Theorem negotiation_skipped_when_score_missing E caps evaluations log who :
  readable (entry evaluations who) = false
  \/ (score_of evaluations who = None
      /\ forall w, toNumber (score_of evaluations w) <> None) ->
  negotiateScores E caps evaluations log = (Return JNull, log)
  /\ negotiateScores_gemini E caps evaluations log = (Return JNull, log).
Proof.
  intros H. rewrite <- negotiateScores_variants_agree.
  assert (Hgoal : negotiateScores E caps evaluations log = (Return JNull, log));
    [|now split].
  unfold negotiateScores, try_catch, bind.
  destruct (readable (entry evaluations hr)) eqn:Rh;
    [| destruct (scores_unreadable E evaluations log hr Rh) as [msg ->];
       reflexivity].
  destruct (readable (entry evaluations manager)) eqn:Rm;
    [| destruct (scores_unreadable E evaluations log manager Rm) as [msg ->];
       reflexivity].
  destruct (readable (entry evaluations sales)) eqn:Rs;
    [| destruct (scores_unreadable E evaluations log sales Rs) as [msg ->];
       reflexivity].
  destruct H as [Hun | [Hnone Hnum]].
  { destruct who; congruence. }
  rewrite (scores_readable E evaluations log Rh Rm Rs).
  rewrite discrepancy_missing; [reflexivity | | apply Hnum | apply Hnum | apply Hnum].
  destruct who; auto.
Qed.

Lemma negotiation_skipped_when_score_missing_witness :
  negotiateScores v8 obliging emptyAnswerSet [] = (Return JNull, [])
  /\ negotiateScores_gemini v8 obliging emptyAnswerSet [] = (Return JNull, []).
Proof.
  apply (negotiation_skipped_when_score_missing v8 obliging emptyAnswerSet []
           hr).
  right. split; [reflexivity|]. intros w. destruct w; discriminate.
Defined.

(** ** The discrepancy check in terms of the gaps between scores *)







(** Between 3 and 4 the gaps alone do not decide. *)
Example gaps_between_3_and_4 :
  snd (negotiateScores v8 obliging
         (evaluationSet (opinion 1 "NO") (opinion 1 "NO") (opinion (9 # 2) "MAYBE"))
         [])
  <> []
  /\ snd (negotiateScores v8 obliging
            (evaluationSet (opinion 1 "NO") (opinion (11 # 4) "NO")
               (opinion (9 # 2) "MAYBE"))
            [])
     = [].
Proof. split; vm_compute; [discriminate | reflexivity]. Qed.

(** ** The check does not depend on who gave which score *)









(** ** [decideHiring]: what it needs and what it calls *)

Lemma missing_analysis_no_prompt evaluations who :
  optional (entry evaluations who) "analysis" = None ->
  prompt_builds evaluations = false.
Proof.
  unfold entry, prompt_builds. destruct who; cbn [key]; intros ->.
  - reflexivity.
  - now destruct (optional (optional (Some evaluations) "hr") "analysis").
  - destruct (optional (optional (Some evaluations) "hr") "analysis");
      [|reflexivity].
    now destruct (optional (optional (Some evaluations) "manager") "analysis").
Qed.

(** X4. [decideHiring] cannot build its prompt when an evaluator's entry
    has no [analysis]: it then returns the manual-review fallback whatever
    the scores are, and calls neither the judgment capability nor the
    clarification generator. *)
Theorem missing_analysis_forces_fallback E caps evaluations log who :
  optional (entry evaluations who) "analysis" = None ->
  fst (decideHiring E caps evaluations log) = Return (fallback (noDecision E))
  /\ snd (decideHiring E caps evaluations log)
     = snd (negotiateScores E caps evaluations log).
Proof.
  intros Hmiss. apply missing_analysis_no_prompt in Hmiss.
  destruct (negotiateScores_returns E caps evaluations log) as [nr [H | H]];
    rewrite (decideHiring_run _ _ _ _ _ _ H), Hmiss, H; split; reflexivity.
Qed.

Lemma missing_analysis_forces_fallback_witness :
  fst (decideHiring v8 obliging bareSalesSet [])
  = Return (fallback (noDecision v8))
  /\ snd (decideHiring v8 obliging bareSalesSet [])
     = snd (negotiateScores v8 obliging bareSalesSet []).
Proof.
  apply (missing_analysis_forces_fallback v8 obliging bareSalesSet [] sales).
  reflexivity.
Defined.

(** X5. The calls of one [decideHiring]: at most one to the mediator, then
    at most one to the judgment capability, then at most one to the
    clarification generator, in this order, all with the evaluations it was
    given; the generator is called only after the judgment capability, and
    no evaluator is called. *)
Theorem decideHiring_calls_in_order E caps evaluations log :
  exists nr mediatorCalls judgeCalls clarifierCalls,
    snd (decideHiring E caps evaluations log)
    = (log ++ mediatorCalls ++ judgeCalls ++ clarifierCalls)%list
    /\ (mediatorCalls = [] \/ mediatorCalls = [Mediator evaluations])
    /\ (judgeCalls = [] \/ judgeCalls = [Judge evaluations nr])
    /\ (clarifierCalls = []
        \/ (clarifierCalls = [Clarifier evaluations]
            /\ judgeCalls = [Judge evaluations nr])).
Proof.
  assert (Hafter : forall nr log1 mediatorCalls,
    negotiateScores E caps evaluations log = (Return nr, log1) ->
    log1 = (log ++ mediatorCalls)%list ->
    exists judgeCalls clarifierCalls,
      snd (decideHiring E caps evaluations log)
      = (log ++ mediatorCalls ++ judgeCalls ++ clarifierCalls)%list
      /\ (judgeCalls = [] \/ judgeCalls = [Judge evaluations nr])
      /\ (clarifierCalls = []
          \/ (clarifierCalls = [Clarifier evaluations]
              /\ judgeCalls = [Judge evaluations nr]))).
  { intros nr log1 mediatorCalls Hrun ->.
    rewrite (decideHiring_run _ _ _ _ _ _ Hrun).
    assert (Hnone : exists judgeCalls clarifierCalls : list call,
              (log ++ mediatorCalls)%list
              = (log ++ mediatorCalls ++ judgeCalls ++ clarifierCalls)%list
              /\ (judgeCalls = [] \/ judgeCalls = [Judge evaluations nr])
              /\ (clarifierCalls = []
                  \/ (clarifierCalls = [Clarifier evaluations]
                      /\ judgeCalls = [Judge evaluations nr]))).
    { exists [], []. simpl. rewrite app_nil_r. auto. }
    assert (Hjudge : exists judgeCalls clarifierCalls : list call,
              ((log ++ mediatorCalls) ++ [Judge evaluations nr])%list
              = (log ++ mediatorCalls ++ judgeCalls ++ clarifierCalls)%list
              /\ (judgeCalls = [] \/ judgeCalls = [Judge evaluations nr])
              /\ (clarifierCalls = []
                  \/ (clarifierCalls = [Clarifier evaluations]
                      /\ judgeCalls = [Judge evaluations nr]))).
    { exists [Judge evaluations nr], []. simpl. rewrite <- app_assoc. auto. }
    assert (Hboth : exists judgeCalls clarifierCalls : list call,
              (((log ++ mediatorCalls) ++ [Judge evaluations nr])
               ++ [Clarifier evaluations])%list
              = (log ++ mediatorCalls ++ judgeCalls ++ clarifierCalls)%list
              /\ (judgeCalls = [] \/ judgeCalls = [Judge evaluations nr])
              /\ (clarifierCalls = []
                  \/ (clarifierCalls = [Clarifier evaluations]
                      /\ judgeCalls = [Judge evaluations nr]))).
    { exists [Judge evaluations nr], [Clarifier evaluations]. simpl.
      rewrite <- !app_assoc. auto. }
    destruct (prompt_builds evaluations); cbv zeta; [|exact Hnone].
    destruct (object_or_null (judge caps evaluations nr)); try exact Hjudge;
      (destruct (maybe_without_question _); [|exact Hjudge];
       destruct (clarify caps evaluations); exact Hboth). }
  destruct (negotiateScores_returns E caps evaluations log) as [nr [H | H]].
  - destruct (Hafter nr log [] H) as (j & c & Hlog & Hj & Hc);
      [now rewrite app_nil_r|].
    exists nr, [], j, c. auto.
  - destruct (Hafter nr _ [Mediator evaluations] H eq_refl)
      as (j & c & Hlog & Hj & Hc).
    exists nr, [Mediator evaluations], j, c. auto.
Qed.

(** X6. A round in which every evaluator fails still reaches the judgment
    capability: [evaluateCandidate] returns the three placeholders, on
    which [negotiateScores] calls no mediator (the scores are 5, 5, 5) and
    [decideHiring] asks the judgment capability once without consensus;
    if that fails too, the round ends with the fallback after this single
    call. *)
Theorem round_with_all_evaluators_failing
  E caps fields cv schedule causeHr causeManager causeSales :
  lookup "cv_text" fields = Some (JStr cv) ->
  Permutation schedule [0; 1; 2]%nat ->
  fails E caps hr (JObj fields) causeHr ->
  fails E caps manager (JObj fields) causeManager ->
  fails E caps sales (JObj fields) causeSales ->
  exists evaluations,
    evaluations = evaluationSet (placeholder causeHr) (placeholder causeManager)
                    (placeholder causeSales)
    /\ fst (evaluateCandidate E caps (JObj fields) schedule [])
       = Return evaluations
    /\ negotiateScores E caps evaluations [] = (Return JNull, [])
    /\ (exists rest,
          snd (decideHiring E caps evaluations [])
          = Judge evaluations JNull :: rest
          /\ (rest = [] \/ rest = [Clarifier evaluations]))
    /\ (unusable (judge caps evaluations JNull) = true ->
          decideHiring E caps evaluations []
          = (Return (fallback (noDecision E)), [Judge evaluations JNull])).
Proof.
  intros Hcv HP Fh Fm Fs. eexists. split; [reflexivity|].
  assert (Hrun : forall who cause, fails E caps who (JObj fields) cause ->
            forall l, fst (evaluate E caps who (JObj fields) l)
                      = Return (placeholder cause)).
  { intros who cause Hf l.
    now rewrite (evaluate_failure_placeholder_run _ _ _ _ _ _ l Hcv Hf). }
  split.
  { rewrite (evaluateCandidate_run _ _ _ _ _ _ _ _
               (Hrun hr _ Fh) (Hrun manager _ Fm) (Hrun sales _ Fs)).
    destruct (promise_all_three (placeholder causeHr) (placeholder causeManager)
                (placeholder causeSales) schedule HP) as [-> _].
    reflexivity. }
  assert (Hneg : negotiateScores E caps
                   (evaluationSet (placeholder causeHr)
                      (placeholder causeManager) (placeholder causeSales)) []
                 = (Return JNull, [])).
  { now rewrite (negotiateScores_numeric E caps
                   (evaluationSet (placeholder causeHr)
                      (placeholder causeManager) (placeholder causeSales))
                   5 5 5 [] eq_refl eq_refl eq_refl). }
  split; [exact Hneg|].
  rewrite (decideHiring_run _ _ _ _ _ _ Hneg).
  change (prompt_builds
            (evaluationSet (placeholder causeHr) (placeholder causeManager)
               (placeholder causeSales))) with true.
  cbv zeta. split.
  - destruct (object_or_null (judge caps _ JNull));
      try (exists []; split; [reflexivity | now left]);
      (destruct (maybe_without_question _);
       [destruct (clarify caps _);
        exists [Clarifier
                  (evaluationSet (placeholder causeHr)
                     (placeholder causeManager) (placeholder causeSales))];
        (split; [reflexivity | now right])
       | exists []; split; [reflexivity | now left]]).
  - intros Hbad. now rewrite (unusable_null _ Hbad).
Qed.

Lemma round_with_all_evaluators_failing_witness :
  exists evaluations,
    fst (evaluateCandidate v8 allDown alice [2; 1; 0]%nat []) = Return evaluations
    /\ negotiateScores v8 allDown evaluations [] = (Return JNull, [])
    /\ decideHiring v8 allDown evaluations []
       = (Return (fallback (noDecision v8)), [Judge evaluations JNull]).
Proof.
  destruct (round_with_all_evaluators_failing v8 allDown profile
              "Ten years of backend work." [2; 1; 0]%nat
              "ECONNREFUSED" "ECONNREFUSED" "ECONNREFUSED" eq_refl)
    as (evaluations & -> & Heval & Hneg & _ & Hfall).
  - apply perm_trans with [1; 2; 0]%nat; [apply perm_swap|].
    apply perm_trans with [1; 0; 2]%nat;
      [apply perm_skip, perm_swap | apply perm_swap].
  - apply fails_capability. reflexivity.
  - apply fails_capability. reflexivity.
  - apply fails_capability. reflexivity.
  - eexists. split; [exact Heval|]. split; [exact Hneg|].
    apply Hfall. reflexivity.
Defined.

(** ** [callSmartInference] *)

Lemma string_append_assoc (a b c : string) : (a ++ b) ++ c = a ++ (b ++ c).
Proof. induction a as [|x a IH]; simpl; [reflexivity | now rewrite IH]. Qed.

Lemma settle_chunks status chunks rest : forall data,
  settle_exchange status (map Chunk chunks ++ rest)%list data
  = settle_exchange status rest (data ++ body chunks).
Proof.
  induction chunks as [|c chunks IH]; intros data; simpl.
  - f_equal. induction data as [|x data IHd]; simpl; [reflexivity|].
    now rewrite <- IHd.
  - rewrite IH. now rewrite string_append_assoc.
Qed.

(** Every sequence of events is a run of chunks, followed by nothing, by
    the end of the response or by an error. *)
Lemma events_split (evs : list http_event) :
  exists chunks,
    evs = map Chunk chunks
    \/ (exists rest, evs = (map Chunk chunks ++ EndOfResponse :: rest)%list)
    \/ (exists message rest,
          evs = (map Chunk chunks ++ RequestError message :: rest)%list).
Proof.
  induction evs as [|e evs (chunks & IH)].
  - exists []. now left.
  - destruct e as [c | | message].
    + exists (c :: chunks).
      destruct IH as [-> | [(rest & ->) | (message & rest & ->)]];
        [now left | right; left; now exists rest
        | right; right; now exists message, rest].
    + exists []. right. left. now exists evs.
    + exists []. right. right. now exists message, evs.
Qed.



(** X8. [callSmartInference] resolves only on a status code from 200 to 299
    whose whole body parses as JSON to something other than [null], and
    then with the [text] property of the parsed body, [undefined] when the
    body has none: no other status and no malformed body ever resolves the
    promise. *)
Theorem callSmartInference_resolves_only_on_success x v :
  callSmartInference x = Return v ->
  (200 <= statusCode x < 300)%Z
  /\ exists chunks rest parsed,
       events x = (map Chunk chunks ++ EndOfResponse :: rest)%list
       /\ JSON.parse (body chunks) = Some parsed
       /\ parsed <> JNull
       /\ v = optional (Some parsed) "text".
Proof.
  destruct x as [status evs]. unfold callSmartInference. simpl.
  destruct (events_split evs)
    as [chunks [-> | [(rest & ->) | (message & rest & ->)]]].
  - rewrite <- (app_nil_r (map Chunk chunks)), settle_chunks.
    cbn [settle_exchange]. discriminate.
  - rewrite settle_chunks. cbn [settle_exchange String.append]. unfold on_end.
    destruct ((200 <=? status)%Z && (status <? 300)%Z) eqn:Hs; [|discriminate].
    apply andb_true_iff in Hs. destruct Hs as [H1 H2].
    apply Z.leb_le in H1. apply Z.ltb_lt in H2.
    destruct (JSON.parse (body chunks)) as [[| b | q | s | items | fields]|] eqn:Hp;
      try discriminate; intros [= <-]; (split; [lia|]);
      exists chunks, rest; eexists; (split; [reflexivity|]);
      (split; [exact Hp|]); (split; [discriminate | reflexivity]).
  - rewrite settle_chunks. cbn [settle_exchange]. discriminate.
Qed.

Lemma callSmartInference_resolves_only_on_success_witness :
  (200 <= statusCode noTextExchange < 300)%Z
  /\ exists chunks rest parsed,
       events noTextExchange = (map Chunk chunks ++ EndOfResponse :: rest)%list
       /\ JSON.parse (body chunks) = Some parsed
       /\ parsed <> JNull
       /\ None = optional (Some parsed) "text".
Proof.
  apply (callSmartInference_resolves_only_on_success noTextExchange None).
  vm_compute. reflexivity.
Defined.

Example callSmartInference_rejects_503 :
  callSmartInference unavailableExchange
  = Throw ("Request failed with status code 503: "
           ++ json_text "{'text': 'retry later'}").
Proof. vm_compute. reflexivity. Qed.



(** ** The Gemini variant of the evaluators *)

(** X10. The two variants of [Agent.evaluate] return the same evaluation
    and log the same call for every candidate and every answer of the
    capability, except for a text without a brace span: there both return
    the placeholder, with different messages. *)
Theorem evaluate_variants_agree E caps who candidate log :
  ((forall text, invoke caps who candidate = Text text ->
                 Regex.exec text <> None) ->
   evaluate_gemini E caps who candidate log = evaluate E caps who candidate log)
  /\ (forall fields cv text,
        candidate = JObj fields ->
        lookup "cv_text" fields = Some (JStr cv) ->
        invoke caps who candidate = Text text ->
        Regex.exec text = None ->
        fst (evaluate_gemini E caps who candidate log)
        = Return (placeholder "Invalid response format")
        /\ fst (evaluate E caps who candidate log)
           = Return (placeholder "Invalid JSON response format from agent")).
Proof.
  split.
  - intros Hmatch. unfold evaluate_gemini, evaluate, try_catch, bind.
    destruct (member E (Some candidate) "name" log) as [[a | e |] l];
      try reflexivity.
    destruct (member E (Some candidate) "cv_text" l) as [[cv | e |] l'];
      try reflexivity.
    destruct (match cv with
              | Some (JStr _) => ret tt
              | _ => throw (typeErrorMessage E cv "substring")
              end l') as [[u | e |] l'']; try reflexivity.
    unfold await.
    destruct (invoke caps who candidate) as [text|message] eqn:Hi;
      [|reflexivity].
    destruct (Regex.exec text) as [jsonMatch|] eqn:Hx; [reflexivity|].
    now destruct (Hmatch text eq_refl).
  - intros fields cv text -> Hcv Hi Hx. split.
    + unfold evaluate_gemini. run. rewrite Hcv, Hi. simpl. now rewrite Hx.
    + rewrite (evaluate_run _ _ _ _ _ _ Hcv), Hi. simpl. now rewrite Hx.
Qed.

Lemma evaluate_variants_agree_witness :
  evaluate_gemini v8 managerTimesOut manager alice []
  = evaluate v8 managerTimesOut manager alice []
  /\ fst (evaluate_gemini v8 proseOnly hr alice [])
     = Return (placeholder "Invalid response format")
  /\ fst (evaluate v8 proseOnly hr alice [])
     = Return (placeholder "Invalid JSON response format from agent").
Proof.
  split.
  - apply (proj1 (evaluate_variants_agree v8 managerTimesOut manager alice [])).
    intros text H. discriminate H.
  - apply (proj2 (evaluate_variants_agree v8 proseOnly hr alice []) profile
             "Ten years of backend work."
             "I would rate this candidate eight out of ten.");
      reflexivity.
Defined.

Lemma evaluate_gemini_returns E caps who candidate :
  exists v, forall log,
    fst (evaluate_gemini E caps who candidate log) = Return v.
Proof.
  destruct candidate as [| b | q | s | items | fields];
    try (eexists; intros log; unfold evaluate_gemini; run; reflexivity).
  destruct (lookup "cv_text" fields) as [[| b | q | cv | items | fs]|] eqn:Hcv;
    try (eexists; intros log; unfold evaluate_gemini; run; rewrite Hcv;
         reflexivity).
  destruct (invoke caps who (JObj fields)) as [text|message] eqn:Hi.
  - destruct (Regex.exec text) as [jsonMatch|] eqn:Hx.
    + destruct (JSON.parse jsonMatch) as [v|] eqn:Hp.
      * destruct (parse_match_object _ _ _ Hx Hp) as [fs ->].
        eexists; intros log. unfold evaluate_gemini. run.
        rewrite Hcv, Hi. simpl. rewrite Hx. simpl. rewrite Hp. reflexivity.
      * eexists; intros log. unfold evaluate_gemini. run.
        rewrite Hcv, Hi. simpl. rewrite Hx. simpl. rewrite Hp. reflexivity.
    + eexists; intros log. unfold evaluate_gemini. run.
      rewrite Hcv, Hi. simpl. rewrite Hx. reflexivity.
  - eexists; intros log. unfold evaluate_gemini. run.
    rewrite Hcv, Hi. reflexivity.
Qed.

(** X11. The Gemini variant of [evaluateCandidate] needs
    [initializeAgents] to have run: before that, the constructor of its
    first agent throws, the error is thrown on to the caller, and no
    evaluator is called.  After it, the function returns the three
    evaluations under the keys hr, manager and sales for every order in
    which the branches settle. *)
Theorem evaluateCandidate_gemini_needs_initialization
  E caps fields schedule log :
  evaluateCandidate_gemini E caps false (JObj fields) schedule log
  = (Throw (typeErrorMessage E None "getGenerativeModel"), log)
  /\ (Permutation schedule [0; 1; 2]%nat ->
        exists h m s,
          fst (evaluateCandidate_gemini E caps true (JObj fields) schedule log)
          = Return (evaluationSet h m s)
          /\ (forall l, fst (evaluate_gemini E caps hr (JObj fields) l)
                        = Return h)
          /\ (forall l, fst (evaluate_gemini E caps manager (JObj fields) l)
                        = Return m)
          /\ (forall l, fst (evaluate_gemini E caps sales (JObj fields) l)
                        = Return s)).
Proof.
  split; [reflexivity|].
  intros HP.
  destruct (evaluate_gemini_returns E caps hr (JObj fields)) as [h Hh].
  destruct (evaluate_gemini_returns E caps manager (JObj fields)) as [m Hm].
  destruct (evaluate_gemini_returns E caps sales (JObj fields)) as [s Hs].
  exists h, m, s. split; [|auto].
  unfold evaluateCandidate_gemini, await_all, newAgent. run.
  assert (H1 := Hh log).
  destruct (evaluate_gemini E caps hr (JObj fields) log) as [r1 l1].
  simpl in H1. subst r1.
  assert (H2 := Hm l1).
  destruct (evaluate_gemini E caps manager (JObj fields) l1) as [r2 l2].
  simpl in H2. subst r2.
  assert (H3 := Hs l2).
  destruct (evaluate_gemini E caps sales (JObj fields) l2) as [r3 l3].
  simpl in H3. subst r3.
  destruct (promise_all_three h m s schedule HP) as [-> _]. reflexivity.
Qed.

Lemma evaluateCandidate_gemini_needs_initialization_witness :
  exists h m s,
    fst (evaluateCandidate_gemini v8 managerTimesOut true alice [0; 2; 1]%nat [])
    = Return (evaluationSet h m s)
    /\ (forall l, fst (evaluate_gemini v8 managerTimesOut manager alice l)
                  = Return m).
Proof.
  destruct (proj2 (evaluateCandidate_gemini_needs_initialization v8
                     managerTimesOut profile [0; 2; 1]%nat []))
    as (h & m & s & Hset & _ & Hm & _).
  - apply perm_skip, perm_swap.
  - exists h, m, s. split; [exact Hset | exact Hm].
Defined.

(** ** The scoring utilities *)

Ltac thresholds :=
  repeat match goal with
         | H : Qle_bool _ _ = true |- _ => apply Qle_bool_iff in H
         | H : Qle_bool ?a ?b = false |- _ =>
             let Hle := fresh "Hle" in
             assert (b < a)
               by (apply Qnot_le_lt; intros Hle;
                   apply Qle_bool_iff in Hle; congruence);
             clear H
         end.


(** X13. A higher score never gets a worse colour or a worse label. *)
Theorem score_display_is_monotone (q1 q2 : Q) :
  q1 <= q2 ->
  (colorRank (getScoreColor (Some q1)) <= colorRank (getScoreColor (Some q2)))%nat
  /\ (labelRank (getScoreLabel (Some q1)) <= labelRank (getScoreLabel (Some q2)))%nat.
Proof.
  intros Hle. unfold getScoreColor, getScoreLabel, atLeast. split.
  - destruct (Qle_bool 8 q1) eqn:A8; destruct (Qle_bool 6 q1) eqn:A6;
      destruct (Qle_bool 4 q1) eqn:A4; destruct (Qle_bool 8 q2) eqn:B8;
      destruct (Qle_bool 6 q2) eqn:B6; destruct (Qle_bool 4 q2) eqn:B4;
      try (vm_compute; lia); exfalso; thresholds; lra.
  - destruct (Qle_bool 9 q1) eqn:A9; destruct (Qle_bool 7 q1) eqn:A7;
      destruct (Qle_bool 5 q1) eqn:A5; destruct (Qle_bool 3 q1) eqn:A3;
      destruct (Qle_bool 9 q2) eqn:B9; destruct (Qle_bool 7 q2) eqn:B7;
      destruct (Qle_bool 5 q2) eqn:B5; destruct (Qle_bool 3 q2) eqn:B3;
      try (vm_compute; lia); exfalso; thresholds; lra.
Qed.

Lemma score_display_is_monotone_witness :
  (colorRank (getScoreColor (Some 5%Q))
   <= colorRank (getScoreColor (Some (15 # 2)%Q)))%nat
  /\ (labelRank (getScoreLabel (Some 5%Q))
      <= labelRank (getScoreLabel (Some (15 # 2)%Q)))%nat.
Proof.
  apply (score_display_is_monotone 5 (15 # 2)). vm_compute. discriminate.
Defined.

(** ** The cache module *)

Lemma fire_memory now pending : forall m key,
  snd (fire now pending m) key
  = if dueFor now pending key then None else m key.
Proof.
  induction pending as [|[due k] rest IH]; intros m key; simpl;
    [reflexivity|].
  destruct (due <=? now)%Z; simpl.
  - rewrite IH. unfold mapDelete.
    destruct (String.eqb key k); simpl; [|reflexivity].
    now destruct (dueFor now rest key).
  - specialize (IH m key). destruct (fire now rest m) as [left m']. exact IH.
Qed.

Lemma fire_timers now pending : forall m,
  fst (fire now pending m)
  = filter (fun t => negb (fst t <=? now)%Z) pending.
Proof.
  induction pending as [|[due k] rest IH]; intros m; simpl; [reflexivity|].
  destruct (due <=? now)%Z; simpl; [apply IH|].
  specialize (IH m). destruct (fire now rest m) as [left m']. simpl in *.
  now rewrite IH.
Qed.

Lemma advance_get ms c key :
  memoryGet key (advance ms c)
  = if dueFor (clock c + ms) (timers c) key then None else memoryGet key c.
Proof.
  unfold memoryGet, advance.
  assert (H := fire_memory (clock c + ms) (timers c) (memoryCache c) key).
  destruct (fire (clock c + ms) (timers c) (memoryCache c)) as [left m].
  simpl in *. rewrite H.
  now destruct (dueFor (clock c + ms) (timers c) key).
Qed.

Lemma dueFor_app now l l' key :
  dueFor now (l ++ l') key = dueFor now l key || dueFor now l' key.
Proof. unfold dueFor. apply existsb_app. Qed.

Lemma dueFor_absent now pending key :
  (forall due, ~ In (due, key) pending) -> dueFor now pending key = false.
Proof.
  intros Habs. unfold dueFor. apply not_true_iff_false. intros H.
  apply existsb_exists in H. destruct H as ([due k] & Hin & Hdue).
  simpl in Hdue. apply andb_true_iff in Hdue. destruct Hdue as [_ Hk].
  apply String.eqb_eq in Hk. subst k. exact (Habs due Hin).
Qed.

Lemma dueFor_present now pending due key :
  In (due, key) pending -> (due <= now)%Z -> dueFor now pending key = true.
Proof.
  intros Hin Hdue. unfold dueFor. apply existsb_exists.
  exists (due, key). split; [exact Hin|]. simpl.
  apply andb_true_iff. split; [now apply Z.leb_le | apply String.eqb_refl].
Qed.

(** X14. Without a Redis client, a value set with a time to live of
    [ttl] seconds (up to 2147483) is read back until [ttl] seconds have
    passed and is gone from then on, when no older timer is pending for its
    key; an empty string, though, is read back as [null] at once. *)
Theorem cache_round_trip c key value ttl ms :
  (0 < ttl)%Z -> (ttl * 1000 <= 2147483647)%Z -> (0 <= ms)%Z ->
  (forall due, ~ In (due, key) (timers c)) ->
  ((ms < ttl * 1000)%Z ->
     getRedis NoClient key (advance ms (setRedis NoClient key value ttl c))
     = if String.eqb value "" then None else Some value)
  /\ ((ttl * 1000 <= ms)%Z ->
        getRedis NoClient key (advance ms (setRedis NoClient key value ttl c))
        = None).
Proof.
  intros Hpos Hmax Hms Hfresh.
  assert (Hget : getRedis NoClient key
                   (advance ms (setRedis NoClient key value ttl c))
                 = if (ttl * 1000 <=? ms)%Z then None
                   else if String.eqb value "" then None else Some value).
  { unfold getRedis. rewrite advance_get. unfold setRedis. simpl.
    apply Z.ltb_lt in Hpos. rewrite Hpos.
    unfold timeoutDelay. apply Z.leb_le in Hmax. rewrite Hmax.
    rewrite dueFor_app, (dueFor_absent _ _ _ Hfresh). simpl.
    rewrite String.eqb_refl, andb_true_r, orb_false_r.
    replace (clock c + ttl * 1000 <=? clock c + ms)%Z
      with (ttl * 1000 <=? ms)%Z
      by (destruct (ttl * 1000 <=? ms)%Z eqn:H1;
          destruct (clock c + ttl * 1000 <=? clock c + ms)%Z eqn:H2;
          try reflexivity;
          [apply Z.leb_le in H1; apply Z.leb_gt in H2
          | apply Z.leb_gt in H1; apply Z.leb_le in H2]; lia).
    destruct (ttl * 1000 <=? ms)%Z; [reflexivity|].
    unfold memoryGet, mapSet. simpl. now rewrite String.eqb_refl. }
  rewrite Hget. split; intros H.
  - apply Z.leb_gt in H. now rewrite H.
  - apply Z.leb_le in H. now rewrite H.
Qed.

Lemma cache_round_trip_witness :
  getRedis NoClient "session:c-1"
    (advance 86399999 (setRedis NoClient "session:c-1" "{}" 86400 emptyCache))
  = Some "{}"
  /\ getRedis NoClient "session:c-1"
       (advance 86400000 (setRedis NoClient "session:c-1" "{}" 86400 emptyCache))
     = None.
Proof.
  split.
  - apply (proj1 (cache_round_trip emptyCache "session:c-1" "{}" 86400 86399999
                    eq_refl ltac:(discriminate) ltac:(discriminate)
                    (fun due H => H))).
    reflexivity.
  - apply (proj2 (cache_round_trip emptyCache "session:c-1" "{}" 86400 86400000
                    eq_refl ltac:(discriminate) ltac:(discriminate)
                    (fun due H => H))).
    discriminate.
Defined.

(** X15. Without a Redis client, the timer of a first write deletes what a
    second write has put under the same key: when a key is set, set again
    before its first time to live has passed, and read once that first
    time has passed, the read returns [null], however long the second time
    to live is. *)
Theorem stale_timer_deletes_fresh_value c key v1 v2 ttl1 ttl2 d e :
  (0 < ttl1)%Z -> (ttl1 * 1000 <= 2147483647)%Z ->
  (0 <= d)%Z -> (d < ttl1 * 1000)%Z -> (ttl1 * 1000 <= d + e)%Z ->
  getRedis NoClient key
    (advance e (setRedis NoClient key v2 ttl2
                  (advance d (setRedis NoClient key v1 ttl1 c))))
  = None.
Proof.
  intros Hpos Hmax Hd Hlt Hge.
  unfold getRedis. rewrite advance_get.
  set (c1 := setRedis NoClient key v1 ttl1 c).
  set (c2 := advance d c1).
  assert (Hin1 : In ((clock c + ttl1 * 1000)%Z, key) (timers c1)).
  { unfold c1, setRedis. simpl. apply Z.ltb_lt in Hpos. rewrite Hpos.
    unfold timeoutDelay. apply Z.leb_le in Hmax. rewrite Hmax.
    apply in_or_app. right. now left. }
  assert (Hclock2 : clock c2 = (clock c + d)%Z).
  { unfold c2, advance. now destruct (fire _ _ _). }
  assert (Hin2 : In ((clock c + ttl1 * 1000)%Z, key) (timers c2)).
  { unfold c2, advance.
    assert (Hf := fire_timers (clock c1 + d) (timers c1) (memoryCache c1)).
    destruct (fire (clock c1 + d) (timers c1) (memoryCache c1)) as [left m].
    simpl in *. rewrite Hf. apply filter_In. split; [exact Hin1|]. simpl.
    apply negb_true_iff. apply Z.leb_gt.
    change (clock c1) with (clock c). lia. }
  assert (Hin3 : In ((clock c + ttl1 * 1000)%Z, key)
                   (timers (setRedis NoClient key v2 ttl2 c2))).
  { unfold setRedis. simpl.
    destruct (0 <? ttl2)%Z; [apply in_or_app; now left | exact Hin2]. }
  rewrite (dueFor_present _ _ _ _ Hin3); [reflexivity|].
  change (clock (setRedis NoClient key v2 ttl2 c2)) with (clock c2).
  rewrite Hclock2. lia.
Qed.

Lemma stale_timer_deletes_fresh_value_witness :
  getRedis NoClient "session:c-1"
    (advance 3600000
       (setRedis NoClient "session:c-1" "evaluated" 86400
          (advance 82800000
             (setRedis NoClient "session:c-1" "uploaded" 86400 emptyCache))))
  = None.
Proof.
  apply (stale_timer_deletes_fresh_value emptyCache "session:c-1" "uploaded"
           "evaluated" 86400 86400 82800000 3600000);
    first [reflexivity | discriminate].
Defined.

(** X16. What [setRedis] keeps in memory when the Redis client throws is
    kept without a timer: a later read whose client throws as well, or
    that has no client, returns it however much time has passed, when no
    older timer is pending for its key. *)
Theorem value_of_failed_write_never_expires
  c key value ttl ms message (reader : redis (option string)) :
  value <> "" ->
  (forall due, ~ In (due, key) (timers c)) ->
  (reader = NoClient \/ exists message', reader = Breaks message') ->
  getRedis reader key
    (advance ms (setRedis (Breaks message) key value ttl c))
  = Some value.
Proof.
  intros Hne Hfresh Hreader.
  assert (Hmem : memoryGet key
                   (advance ms (setRedis (Breaks message) key value ttl c))
                 = Some value).
  { rewrite advance_get. unfold setRedis. simpl.
    rewrite (dueFor_absent _ _ _ Hfresh).
    unfold memoryGet, mapSet. simpl. rewrite String.eqb_refl.
    apply String.eqb_neq in Hne. now rewrite Hne. }
  destruct Hreader as [-> | [message' ->]]; exact Hmem.
Qed.

Lemma value_of_failed_write_never_expires_witness :
  getRedis (Breaks "ECONNRESET") "candidate:c-1"
    (advance 999999999999
       (setRedis (Breaks "ECONNRESET") "candidate:c-1" "{}" 3600 emptyCache))
  = Some "{}".
Proof.
  apply (value_of_failed_write_never_expires emptyCache "candidate:c-1" "{}"
           3600 999999999999 "ECONNRESET" (Breaks "ECONNRESET")).
  - discriminate.
  - intros due H. exact H.
  - right. now exists "ECONNRESET".
Defined.

(** ** The routes of [server.js] *)

















(** ** The pages of the front end *)

(** X21. The fraud score of an answer is at most 45 on both pages, and on
    the interview page it is never above the score of the chat for the
    same text; so the meter never reaches its red level, which starts
    above 50. *)
Theorem fraud_meter_is_never_red (text : text16) :
  (0 <= InterviewPage.detectFraud text
   <= DecisionPage.detectFraud text)%Z
  /\ (DecisionPage.detectFraud text <= 45)%Z
  /\ meterColor (InterviewPage.detectFraud text) <> "#FF6B6B"
  /\ meterColor (DecisionPage.detectFraud text) <> "#FF6B6B".
Proof.
  unfold InterviewPage.detectFraud, DecisionPage.detectFraud, meterColor.
  cbv zeta.
  destruct ((500 <? List.length text)%nat && (pieces text newline <? 3)%nat);
    destruct (includes text (units "copy") || includes text (units "paste"));
    destruct (shouts 0 text);
    destruct (pieces text space <? 5)%nat;
    cbn; repeat split; try lia; discriminate.
Qed.

(** X22. When the warning shows.  In the chat it shows exactly for a text
    of more than 500 units on fewer than three lines that contains copy
    or paste; on the interview page the text must moreover have at least
    five pieces between spaces.  Runs of capitals never decide it, and a
    text without the words copy and paste is never warned about. *)
Theorem fraud_warning_condition (text : text16) :
  fraudWarning (DecisionPage.detectFraud text)
  = ((500 <? List.length text)%nat && (pieces text newline <? 3)%nat)
    && (includes text (units "copy") || includes text (units "paste"))
  /\ fraudWarning (InterviewPage.detectFraud text)
     = ((500 <? List.length text)%nat && (pieces text newline <? 3)%nat)
       && (includes text (units "copy") || includes text (units "paste"))
       && negb (pieces text space <? 5)%nat.
Proof.
  unfold InterviewPage.detectFraud, DecisionPage.detectFraud, fraudWarning.
  cbv zeta.
  destruct ((500 <? List.length text)%nat && (pieces text newline <? 3)%nat);
    destruct (includes text (units "copy") || includes text (units "paste"));
    destruct (shouts 0 text);
    destruct (pieces text space <? 5)%nat;
    split; reflexivity.
Qed.

(** X23. The header of the decision page knows the labels HIRE and PASS,
    the judge is asked for HIRE, REJECT or MAYBE: for a decision with the
    vocabulary of the judge the page never shows its rejection header,
    and a REJECT is shown with the colour and the words of a MAYBE and
    with no badge at all. *)
Theorem rejection_is_shown_as_pending (decision : json) :
  valid_decision decision = true ->
  DecisionPage.getDecisionMessage (DecisionPage.finalDecision (Some decision))
  <> "Thank you for your interest"
  /\ DecisionPage.getDecisionColor (DecisionPage.finalDecision (Some decision))
     <> "#FF6B6B"
  /\ (optional (Some decision) "final_decision" = Some (JStr "REJECT") ->
      DecisionPage.getDecisionMessage
        (DecisionPage.finalDecision (Some decision))
      = DecisionPage.getDecisionMessage (JStr "MAYBE")
      /\ DecisionPage.getDecisionColor
           (DecisionPage.finalDecision (Some decision))
         = DecisionPage.getDecisionColor (JStr "MAYBE")
      /\ DecisionPage.badge (DecisionPage.finalDecision (Some decision))
         = []).
Proof.
  unfold valid_decision, DecisionPage.finalDecision.
  destruct (optional (Some decision) "final_decision")
    as [[| b | q | outcome | items | fs]|]; try discriminate.
  destruct (optional (Some decision) "confidence_score")
    as [[| b | q | s | items | fs]|]; try discriminate.
  intros Hvalid.
  apply andb_prop in Hvalid. destruct Hvalid as [Hvalid _].
  apply andb_prop in Hvalid. destruct Hvalid as [Hvalid _].
  apply orb_prop in Hvalid. destruct Hvalid as [Hvalid | Hvalid];
    [apply orb_prop in Hvalid; destruct Hvalid as [Hvalid | Hvalid]|];
    apply String.eqb_eq in Hvalid; subst outcome;
    (split; [cbn; discriminate|]; split; [cbn; discriminate|];
     intros Heq; try discriminate Heq; repeat split).
Qed.

Lemma rejection_is_shown_as_pending_witness :
  DecisionPage.getDecisionMessage
    (DecisionPage.finalDecision
       (Some (JObj [("final_decision", JStr "REJECT");
                    ("confidence_score", JNum (9 # 10));
                    ("reasoning", JStr "Not enough experience.")])))
  = "We'd like to learn more about you"
  /\ DecisionPage.badge
       (DecisionPage.finalDecision
          (Some (JObj [("final_decision", JStr "REJECT");
                       ("confidence_score", JNum (9 # 10));
                       ("reasoning", JStr "Not enough experience.")])))
     = [].
Proof.
  destruct (rejection_is_shown_as_pending
              (JObj [("final_decision", JStr "REJECT");
                     ("confidence_score", JNum (9 # 10));
                     ("reasoning", JStr "Not enough experience.")])
              eq_refl) as (_ & _ & H).
  destruct (H eq_refl) as (Hmessage & _ & Hbadge).
  split; [exact Hmessage | exact Hbadge].
Defined.

Example detectFraud_on_a_short_answer :
  InterviewPage.detectFraud (units "I will copy it") = 0%Z
  /\ DecisionPage.detectFraud (units "I will copy it") = 15%Z
  /\ DecisionPage.detectFraud (units "I KNOW HTML and copy it") = 15%Z
  /\ DecisionPage.detectFraud (units "I know XHTML and copy it") = 25%Z.
Proof. repeat split. Qed.
